(** * Environment-variable validation (src/lib/env.ts)

    A shallow embedding of the configuration-validation module of the
    Nigerian tax calculator, and the properties its specification states
    about it.

    - JavaScript strings are sequences of UTF-16 code units ([list N]);
      [String.prototype.trim], [Array.prototype.join] and
      [String.prototype.includes] are written out on them.
    - [process.env] is a finite map from names to string values; a lookup
      of an unset name gives [undefined].
    - The objects built by the validators are finite maps from property
      names to JavaScript values.
    - [throw new Error(message)] is an abrupt completion carrying the
      message.
    - [typeof window !== 'undefined'] is a boolean of the execution
      context. *)

From stdpp Require Import gmap list strings.
From Stdlib Require Import NArith Ascii.

Local Open Scope N_scope.

(** ** JavaScript strings *)

Module JS.

(** A string is its sequence of UTF-16 code units. *)
Abbreviation jsstring := (list N).

(** A literal of the source that only has ASCII characters. *)
Fixpoint js (s : string) : jsstring :=
  match s with
  | EmptyString => []
  | String a s' => N_of_ascii a :: js s'
  end.

(** WhiteSpace and LineTerminator code points of ECMAScript, the ones
    [trim] strips. All of them are single code units. *)
Definition is_white_space (c : N) : bool :=
  (c =? 0x09) || (c =? 0x0A) || (c =? 0x0B) || (c =? 0x0C) || (c =? 0x0D)
  || (c =? 0x20) || (c =? 0xA0) || (c =? 0x1680)
  || ((0x2000 <=? c) && (c <=? 0x200A))
  || (c =? 0x2028) || (c =? 0x2029) || (c =? 0x202F) || (c =? 0x205F)
  || (c =? 0x3000) || (c =? 0xFEFF).

Fixpoint trimStart (s : jsstring) : jsstring :=
  match s with
  | [] => []
  | c :: s' => if is_white_space c then trimStart s' else s
  end.

Definition trimEnd (s : jsstring) : jsstring := rev (trimStart (rev s)).

(** [s.trim()] *)
Definition trim (s : jsstring) : jsstring := trimEnd (trimStart s).

(** [parts.join(sep)] *)
Fixpoint join (sep : jsstring) (parts : list jsstring) : jsstring :=
  match parts with
  | [] => []
  | p :: ps =>
      match ps with
      | [] => p
      | _ :: _ => p ++ sep ++ join sep ps
      end
  end.

(** [s.startsWith(t)] *)
Fixpoint startsWith (s t : jsstring) {struct t} : bool :=
  match t with
  | [] => true
  | c :: t' =>
      match s with
      | [] => false
      | d :: s' => (d =? c) && startsWith s' t'
      end
  end.

(** [s.includes(t)]: [t] occurs in [s] at some position. *)
Fixpoint includes (s t : jsstring) : bool :=
  startsWith s t ||
  match s with
  | [] => false
  | _ :: s' => includes s' t
  end.

(** The values the module handles: [undefined] and strings. *)
Inductive jsval : Type :=
  | JUndefined
  | JString (s : jsstring).

#[global] Instance jsval_eq_dec : EqDecision jsval.
Proof. solve_decision. Defined.

(** [a === b] on these values. *)
Definition strict_eq (a b : jsval) : bool := bool_decide (a = b).

(** Completion of a call: a returned value, or an [Error] thrown with its
    [message]. *)
Inductive completion (A : Type) : Type :=
  | Normal (a : A)
  | Throw (message : jsstring).
Arguments Normal {A} a.
Arguments Throw {A} message.

#[global] Instance completion_ret : MRet completion := @Normal.

#[global] Instance completion_bind : MBind completion := λ A B k c,
  match c with
  | Normal a => k a
  | Throw message => Throw message
  end.

(** [target] after every own property of [source] was copied into it, as
    an object spread does for each of its operands in turn. *)
Definition copy_properties (target source : gmap jsstring jsval) : gmap jsstring jsval :=
  source ∪ target.

End JS.

Import JS.


(** ** The validation module *)

Module Env.

(** [process.env[name]]: the value of a set variable, [undefined] for an
    unset one. *)
Definition process_env_get (process_env : gmap jsstring jsstring) (name : jsstring) : jsval :=
  match process_env !! name with
  | Some value => JString value
  | None => JUndefined
  end.

(** [obj[name]] and [obj.name] on an object the module built. *)
Definition get (obj : gmap jsstring jsval) (name : jsstring) : jsval :=
  default JUndefined (obj !! name).

Definition requiredClientVars : list jsstring :=
  [ js "NEXT_PUBLIC_SUPABASE_URL";
    js "NEXT_PUBLIC_SUPABASE_ANON_KEY";
    js "NEXT_PUBLIC_PLASMIC_PROJECT_ID";
    js "NEXT_PUBLIC_PLASMIC_TOKEN";
    js "NEXT_PUBLIC_RECAPTCHA_SITE_KEY";
    js "NEXT_PUBLIC_PAYSTACK_PUBLIC_KEY";
    js "NEXT_PUBLIC_REMITA_MERCHANT_ID";
    js "NEXT_PUBLIC_REMITA_SERVICE_TYPE_ID";
    js "NEXT_PUBLIC_OPAY_MERCHANT_ID";
    js "NEXT_PUBLIC_OPAY_PUBLIC_KEY";
    js "NEXT_PUBLIC_APP_ENV";
    js "NEXT_PUBLIC_APP_URL" ].

Definition requiredServerVars : list jsstring :=
  [ js "SUPABASE_SERVICE_ROLE_KEY";
    js "RECAPTCHA_SECRET_KEY";
    js "PAYSTACK_SECRET_KEY";
    js "REMITA_API_KEY";
    js "OPAY_SECRET_KEY" ].

(** One turn of the [for (const varName of required...Vars)] loop, on the
    two arrays [missing] and [empty] it pushes to. *)
Definition classify (process_env : gmap jsstring jsstring)
    (arrays : list jsstring * list jsstring) (varName : jsstring)
    : list jsstring * list jsstring :=
  let '(missing, empty) := arrays in
  match process_env_get process_env varName with
  | JUndefined => (missing ++ [varName], empty)
  | JString value =>
      if bool_decide (trim value = []) then (missing, empty ++ [varName])
      else (missing, empty)
  end.

(** The whole loop, from [missing = []] and [empty = []]. Both validators
    have the same loop, over their own list of names. *)
Definition scan (process_env : gmap jsstring jsstring) (vars : list jsstring)
    : list jsstring * list jsstring :=
  foldl (classify process_env) ([], []) vars.

(** The template literal of a list entry: two spaces, a dash, a space and
    the name. *)
Definition entry (varName : jsstring) : jsstring := js "  - " ++ varName.

(** [if (names.length > 0) { errorParts.push(title); names.forEach(...);
    errorParts.push('') }] *)
Definition push_names (title : jsstring) (names : list jsstring)
    (errorParts : list jsstring) : list jsstring :=
  if (0 <? length names)%nat
  then (errorParts ++ [title]) ++ map entry names ++ [[]]
  else errorParts.

Definition missing_title : jsstring := js "Missing variables (not defined in .env.local):".
Definition empty_title : jsstring := js "Empty variables (defined but have no value):".

(** The lines [errorParts] starts with in [validateClientEnv]; the first
    one starts with U+274C. *)
Definition clientHeading : list jsstring :=
  [ [0x274C] ++ js " Environment Variable Validation Failed!";
    [];
    js "Required client-side environment variables are not properly configured.";
    [] ].

(** The lines [validateClientEnv] pushes last. *)
Definition clientHowToFix : list jsstring :=
  [ js "How to fix:";
    js "1. Copy .env.example to .env.local:";
    js "   cp .env.example .env.local";
    [];
    js "2. Fill in the missing/empty values in .env.local";
    [];
    js "3. Restart your development server";
    [];
    js "See .env.example for guidance on where to get these values." ].

Definition clientErrorParts (missing empty : list jsstring) : list jsstring :=
  let errorParts := clientHeading in
  let errorParts := push_names missing_title missing errorParts in
  let errorParts := push_names empty_title empty errorParts in
  errorParts ++ clientHowToFix.

(** The lines [errorParts] starts with in [validateServerEnv]; the warning
    line starts with U+26A0 U+FE0F. *)
Definition serverHeading : list jsstring :=
  [ [0x274C] ++ js " Server Environment Variable Validation Failed!";
    [];
    js "Required server-side (secret) environment variables are not properly configured.";
    [];
    [0x26A0; 0xFE0F] ++ js "  WARNING: These variables should NEVER be prefixed with NEXT_PUBLIC_";
    js "   They contain sensitive data and must remain server-side only!";
    [] ].

(** The lines [validateServerEnv] pushes last. *)
Definition serverHowToFix : list jsstring :=
  [ js "How to fix:";
    js "1. Check your .env.local file";
    [];
    js "2. Fill in the missing/empty SECRET variables";
    js "   (Do NOT add NEXT_PUBLIC_ prefix to these!)";
    [];
    js "3. Restart your development server";
    [];
    js "See .env.example for guidance on where to get these values." ].

Definition serverErrorParts (missing empty : list jsstring) : list jsstring :=
  let errorParts := serverHeading in
  let errorParts := push_names missing_title missing errorParts in
  let errorParts := push_names empty_title empty errorParts in
  errorParts ++ serverHowToFix.

(** The line feed the parts are joined with. *)
Definition LF : jsstring := [0x0A].

(** [vars.reduce((acc, key) => { acc[key] = process.env[key]; return acc }, {})] *)
Definition collect (process_env : gmap jsstring jsstring) (vars : list jsstring)
    : gmap jsstring jsval :=
  foldl (λ acc key, <[key := process_env_get process_env key]> acc) ∅ vars.

Definition validateClientEnv (process_env : gmap jsstring jsstring)
    : completion (gmap jsstring jsval) :=
  let '(missing, empty) := scan process_env requiredClientVars in
  if (0 <? length missing)%nat || (0 <? length empty)%nat
  then Throw (join LF (clientErrorParts missing empty))
  else Normal (collect process_env requiredClientVars).

(** [window_defined] is [typeof window !== 'undefined']. *)
Definition validateServerEnv (window_defined : bool)
    (process_env : gmap jsstring jsstring) : completion (gmap jsstring jsval) :=
  if window_defined then Normal ∅
  else
    let '(missing, empty) := scan process_env requiredServerVars in
    if (0 <? length missing)%nat || (0 <? length empty)%nat
    then Throw (join LF (serverErrorParts missing empty))
    else Normal (collect process_env requiredServerVars).

Definition validateEnv (window_defined : bool)
    (process_env : gmap jsstring jsstring) : completion (gmap jsstring jsval) :=
  clientEnv ← validateClientEnv process_env;
  serverEnv ← validateServerEnv window_defined process_env;
  mret (copy_properties (copy_properties ∅ clientEnv) serverEnv).

(** What the module exports once its top-level statements have run. *)
Record exports : Type := Exports {
  env : gmap jsstring jsval;
  isProduction : bool;
  isDevelopment : bool;
  isStaging : bool
}.

Definition APP_ENV : jsstring := js "NEXT_PUBLIC_APP_ENV".

(** The top-level statements of the module, in their order: [env] is
    validated first, and a failure there leaves nothing exported. The
    [console.log] that ends the module prints a line and changes no
    export. *)
Definition load (window_defined : bool) (process_env : gmap jsstring jsstring)
    : completion exports :=
  env ← validateEnv window_defined process_env;
  mret {| env := env;
          isProduction := strict_eq (get env APP_ENV) (JString (js "production"));
          isDevelopment := strict_eq (get env APP_ENV) (JString (js "development"));
          isStaging := strict_eq (get env APP_ENV) (JString (js "staging")) |}.

(** [isServer()] *)
Definition isServer (window_defined : bool) : bool := negb window_defined.

End Env.

Import Env.

(** ** Classification of a name in a configuration source

    The three classes of the specification: a name is missing when the
    source does not define it, empty when its value trims to the empty
    string, present otherwise. *)

Definition missing_in (process_env : gmap jsstring jsstring) (name : jsstring) : Prop :=
  process_env !! name = None.

Definition empty_in (process_env : gmap jsstring jsstring) (name : jsstring) : Prop :=
  match process_env !! name with
  | Some value => trim value = []
  | None => False
  end.

Definition present_in (process_env : gmap jsstring jsstring) (name : jsstring) : Prop :=
  match process_env !! name with
  | Some value => trim value ≠ []
  | None => False
  end.

#[global] Instance missing_in_dec process_env name : Decision (missing_in process_env name).
Proof. unfold missing_in. apply _. Defined.

#[global] Instance empty_in_dec process_env name : Decision (empty_in process_env name).
Proof. unfold empty_in. destruct (process_env !! name); apply _. Defined.

#[global] Instance present_in_dec process_env name : Decision (present_in process_env name).
Proof. unfold present_in. destruct (process_env !! name); apply _. Defined.

(** The names a context validates: the public ones everywhere, the secret
    ones only where [window] is undefined. *)
Definition validated_names (window_defined : bool) : list jsstring :=
  requiredClientVars ++ (if window_defined then [] else requiredServerVars).

(** The three tier literals. *)
Definition tiers : list jsstring := [js "development"; js "staging"; js "production"].

(** The marker the error display looks for in [error.message]
    (EnvErrorDisplay.tsx). *)
Definition marker : jsstring := js "Environment Variable Validation Failed".

Definition isEnvError (errorMessage : jsstring) : bool := includes errorMessage marker.

(** A source that sets every name of [vars] to [value], on top of [base]. *)
Definition set_all (vars : list jsstring) (value : jsstring)
    (base : gmap jsstring jsstring) : gmap jsstring jsstring :=
  foldr (λ name acc, <[name := value]> acc) base vars.

(** The object [validateEnv] returns once both validators have returned:
    the spread of the two objects of the [reduce]s, the second one empty
    where [window] is defined. *)
Definition merged (process_env : gmap jsstring jsstring) (window_defined : bool)
    : gmap jsstring jsval :=
  (if window_defined then ∅ else collect process_env requiredServerVars)
  ∪ (collect process_env requiredClientVars ∪ ∅).

(** The first line of each of the two messages. *)
Definition clientFirstLine : jsstring :=
  [0x274C] ++ js " Environment Variable Validation Failed!".

Definition serverFirstLine : jsstring :=
  [0x274C] ++ js " Server Environment Variable Validation Failed!".

(** How many of the flags are true. *)
Definition count_true (flags : list bool) : nat := length (filter Is_true flags).

(** The exports of a module whose tier variable holds [tier]. *)
Definition tier_flags (env : gmap jsstring jsval) (tier : jsstring) : exports :=
  {| env := env;
     isProduction := bool_decide (tier = js "production");
     isDevelopment := bool_decide (tier = js "development");
     isStaging := bool_decide (tier = js "staging") |}.

(** ** The error display and the error boundary

    What a component renders is the tree of its elements and texts; the
    [style] and event-handler props, which no property below depends on,
    are left out of the elements. An [Error] is represented by its
    [message], as in a thrown completion. *)

Module React.

#[local] Unset Elimination Schemes.
Inductive node : Type :=
  | Text (s : jsstring)
  | Element (tag : string) (children : list node).
#[local] Set Elimination Schemes.

(** The elements of a tree that have the given tag, in document order. *)
Fixpoint elements_by_tag (tag : string) (n : node) : list node :=
  match n with
  | Text _ => []
  | Element t children =>
      (if bool_decide (t = tag) then [n] else [])
      ++ concat (map (elements_by_tag tag) children)
  end.

End React.

Import React.

Module Display.

(** [EnvErrorDisplay({ error })] of EnvErrorDisplay.tsx. *)
Definition EnvErrorDisplay (error_message : jsstring) : node :=
  let errorMessage := error_message in
  let isEnvError := includes errorMessage (js "Environment Variable Validation Failed") in
  if negb isEnvError then
    Element "div"
      [ Element "div"
          [ Element "h1" [Text (js "Application Error")];
            Element "pre" [Text error_message] ] ]
  else
    Element "div"
      [ Element "div"
          [ Element "div"
              [ Element "div" [Text [0x2699; 0xFE0F]];
                Element "div"
                  [ Element "h1" [Text (js "Environment Configuration Required")];
                    Element "p" [Text (js "Nigerian Tax Calculator")] ] ];
            Element "div" [ Element "pre" [Text errorMessage] ];
            Element "div"
              [ Element "h3" [Text ([0xD83D; 0xDCA1] ++ js " Quick Fix")];
                Element "ol"
                  [ Element "li"
                      [ Text (js "Copy the example file:");
                        Element "code" [Text (js "cp .env.example .env.local")] ];
                    Element "li"
                      [ Text (js "Fill in the missing values in ");
                        Element "code" [Text (js ".env.local")] ];
                    Element "li"
                      [ Text (js "Restart your development server:");
                        Element "code" [Text (js "npm run dev")] ] ] ];
            Element "div"
              [ Element "p"
                  [ Element "strong" [Text ([0xD83D; 0xDCDA] ++ js " Need help?")];
                    Text (js " Check ");
                    Element "code" [Text (js ".env.example")];
                    Text (js " for detailed instructions on where to get each credential.") ] ];
            Element "div"
              [ Element "div"
                  [ Text (js "Environment validation by ");
                    Element "code" [Text (js "src/lib/env.ts")] ];
                Element "button" [Text ([0xD83D; 0xDD04] ++ js " Retry")] ] ] ].

End Display.

Import Display.

Module Boundary.

(** The state of [EnvErrorBoundary]; [error] is [null] or an [Error]. *)
Record State : Type := {
  hasError : bool;
  error : option jsstring
}.

(** The state the constructor sets. *)
Definition initial : State := {| hasError := false; error := None |}.

Definition getDerivedStateFromError (error : jsstring) : State :=
  {| hasError := true; error := Some error |}.

(** [render()]: the display of the error once one is recorded, the
    children otherwise. The element [<EnvErrorDisplay error=... />] is
    given as what the component renders for it. *)
Definition render (state : State) (children : node) : node :=
  match hasError state, error state with
  | true, Some error => EnvErrorDisplay error
  | _, _ => children
  end.

(** An argument of a [console.error] call. *)
Inductive logged : Type :=
  | LString (s : jsstring)
  | LError (message : jsstring)
  | LErrorInfo.

(** [s.repeat(count)] *)
Definition repeat (s : jsstring) (count : nat) : jsstring :=
  concat (replicate count s).

(** [componentDidCatch(error, errorInfo)], as the [console.error] calls it
    makes, each with its arguments. *)
Definition componentDidCatch (error : jsstring) : list (list logged) :=
  let log :=
    [ [LString (js "Environment Error Boundary caught an error:"); LError error];
      [LString (js "Error Info:"); LErrorInfo] ] in
  let isEnvError := includes error (js "Environment Variable Validation Failed") in
  if isEnvError then
    log ++
    [ [LString ([0x0A] ++ repeat (js "=") 70)];
      [LString (js "ENVIRONMENT CONFIGURATION ERROR")];
      [LString (repeat (js "=") 70)];
      [LString ([0x0A] ++ error ++ [0x0A])];
      [LString (repeat (js "=") 70 ++ [0x0A])] ]
  else log.

End Boundary.

(** ** The check of an environment file (scripts/test-env-validation.mjs)

    The script reads [.env.local] and goes through the required names;
    [check_file] is its loop over the lines of the file, with the arrays
    it pushes to and the lines it logs, and [errorParts] the message it
    prints afterwards. *)

Module Script.

(** [s.split(sep)] for a separator of one code unit. *)
Fixpoint split (sep : N) (s : jsstring) : list jsstring :=
  match s with
  | [] => [[]]
  | c :: s' =>
      if c =? sep then [] :: split sep s'
      else match split sep s' with
           | [] => [[c]]
           | part :: parts => (c :: part) :: parts
           end
  end.

Definition requiredVars : list jsstring :=
  [ js "NEXT_PUBLIC_SUPABASE_URL";
    js "NEXT_PUBLIC_SUPABASE_ANON_KEY";
    js "NEXT_PUBLIC_PLASMIC_PROJECT_ID";
    js "NEXT_PUBLIC_PLASMIC_TOKEN";
    js "NEXT_PUBLIC_RECAPTCHA_SITE_KEY";
    js "NEXT_PUBLIC_PAYSTACK_PUBLIC_KEY";
    js "NEXT_PUBLIC_REMITA_MERCHANT_ID";
    js "NEXT_PUBLIC_REMITA_SERVICE_TYPE_ID";
    js "NEXT_PUBLIC_OPAY_MERCHANT_ID";
    js "NEXT_PUBLIC_OPAY_PUBLIC_KEY";
    js "NEXT_PUBLIC_APP_ENV";
    js "NEXT_PUBLIC_APP_URL" ].

(** The three lines the loop can log for a name. *)
Definition commented_out (varName : jsstring) : jsstring :=
  js "  " ++ [0x274C] ++ js " " ++ varName ++ js " - COMMENTED OUT".

Definition is_empty (varName : jsstring) : jsstring :=
  js "  " ++ [0x26A0; 0xFE0F] ++ js "  " ++ varName ++ js " - EMPTY".

Definition has_value (varName : jsstring) : jsstring :=
  js "  " ++ [0x2705] ++ js " " ++ varName ++ js " - HAS VALUE".

(** The state of the loop: [missingVars], [emptyVars] and the lines
    logged so far. *)
Record state : Type := State {
  missingVars : list jsstring;
  emptyVars : list jsstring;
  logged : list jsstring
}.

(** One turn of [for (const varName of requiredVars)]. A line that was not
    found is [undefined]; [!line] also holds for the empty string. *)
Definition check (lines : list jsstring) (st : state) (varName : jsstring) : state :=
  let line := find (λ l, startsWith (trim l) varName) lines in
  match line with
  | None | Some [] =>
      State (missingVars st ++ [varName]) (emptyVars st) (logged st)
  | Some line =>
      if startsWith (trim line) (js "#") then
        State (missingVars st ++ [varName]) (emptyVars st)
          (logged st ++ [commented_out varName])
      else
        let value :=
          match split 0x3D line !! 1%nat with
          | Some part => trim part
          | None => []
          end in
        if bool_decide (value = []) then
          State (missingVars st) (emptyVars st ++ [varName])
            (logged st ++ [is_empty varName])
        else
          State (missingVars st) (emptyVars st) (logged st ++ [has_value varName])
  end.

(** The loop on the content of the file. *)
Definition check_file (envContent : jsstring) : state :=
  let lines := split 0x0A envContent in
  foldl (check lines) (State [] [] []) requiredVars.

(** The message the script prints when a name is missing or empty. *)
Definition errorParts (missingVars emptyVars : list jsstring) : list jsstring :=
  let errorParts :=
    [ [0x274C] ++ js " Environment Variable Validation Failed!";
      [];
      js "Required client-side environment variables are not properly configured.";
      [] ] in
  let errorParts :=
    if (0 <? length missingVars)%nat
    then (errorParts ++ [js "Missing variables (not defined in .env.local):"])
         ++ map (λ v, js "  - " ++ v) missingVars ++ [[]]
    else errorParts in
  let errorParts :=
    if (0 <? length emptyVars)%nat
    then (errorParts ++ [js "Empty variables (defined but have no value):"])
         ++ map (λ v, js "  - " ++ v) emptyVars ++ [[]]
    else errorParts in
  errorParts ++
  [ js "How to fix:";
    js "1. Copy .env.example to .env.local:";
    js "   cp .env.example .env.local";
    [];
    js "2. Fill in the missing/empty values in .env.local";
    [];
    js "3. Restart your development server";
    [];
    js "See .env.example for guidance on where to get these values." ].

End Script.

(** ** Sources used as examples *)

(** Every public name set, the tier to [production], no secret name set. *)
Definition public_source : gmap jsstring jsstring :=
  set_all requiredClientVars (js "production") ∅.

(** Every public and every secret name set, to a value with white space
    around it and letters of both cases. *)
Definition full_source : gmap jsstring jsstring :=
  set_all (requiredClientVars ++ requiredServerVars) (js " Value 1 ") ∅.

(** [public_source] with every secret name set as well. *)
Definition secrets_source : gmap jsstring jsstring :=
  set_all requiredServerVars (js "sk_live_1") public_source.

(** [public_source] without [NEXT_PUBLIC_SUPABASE_URL] and with an empty
    [NEXT_PUBLIC_PLASMIC_TOKEN]. *)
Definition broken_source : gmap jsstring jsstring :=
  <[js "NEXT_PUBLIC_PLASMIC_TOKEN" := []]>
    (delete (js "NEXT_PUBLIC_SUPABASE_URL") public_source).

(** [public_source] with a tier that is none of the three literals. *)
Definition test_source : gmap jsstring jsstring :=
  <[APP_ENV := js "test"]> public_source.

Ltac by_computation := apply (bool_decide_unpack _); vm_compute; exact I.

(** ** Strings *)

Section strings.

Lemma trimStart_nil_iff (s : jsstring) :
  trimStart s = [] ↔ forallb is_white_space s = true.
Proof.
  induction s as [|c s IH]; simpl; [done|].
  destruct (is_white_space c); simpl; [exact IH | split; discriminate].
Qed.

Lemma trimStart_head (s : jsstring) (c : N) (t : jsstring) :
  trimStart s = c :: t → is_white_space c = false.
Proof.
  induction s as [|d s IH]; simpl; [discriminate|].
  destruct (is_white_space d) eqn:Hd; [exact IH|].
  intros [= -> _]. exact Hd.
Qed.

(** [trim] gives the empty string exactly on the strings that only have
    white space. *)
Lemma trim_nil_iff (s : jsstring) :
  trim s = [] ↔ forallb is_white_space s = true.
Proof.
  unfold trim, trimEnd. split.
  - intros H. apply trimStart_nil_iff.
    destruct (trimStart s) as [|c t] eqn:Hs; [done|].
    apply (f_equal (@rev N)) in H. rewrite rev_involutive in H. simpl in H.
    apply trimStart_nil_iff in H.
    apply trimStart_head in Hs.
    rewrite forallb_app in H. simpl in H. rewrite Hs in H.
    rewrite andb_false_r in H. discriminate.
  - intros H. apply trimStart_nil_iff in H. rewrite H. reflexivity.
Qed.

Lemma startsWith_app (t r : jsstring) : startsWith (t ++ r) t = true.
Proof.
  induction t as [|c t IH]; simpl; [done|].
  by rewrite N.eqb_refl, IH.
Qed.

Lemma includes_unfold (s t : jsstring) :
  includes s t = startsWith s t || match s with [] => false | _ :: s' => includes s' t end.
Proof. destruct s; reflexivity. Qed.

Lemma includes_app (p t r : jsstring) : includes (p ++ t ++ r) t = true.
Proof.
  induction p as [|c p IH].
  - rewrite app_nil_l, includes_unfold, startsWith_app. reflexivity.
  - rewrite includes_unfold. cbn [app]. rewrite IH. apply orb_true_r.
Qed.

Lemma join_cons2 (sep p q : jsstring) (ps : list jsstring) :
  join sep (p :: q :: ps) = p ++ sep ++ join sep (q :: ps).
Proof. reflexivity. Qed.

End strings.

(** ** The loop and the object the validators build *)

Section validation.

Context (process_env : gmap jsstring jsstring).

Lemma classification (name : jsstring) :
  present_in process_env name ∨ missing_in process_env name ∨ empty_in process_env name.
Proof.
  unfold present_in, missing_in, empty_in.
  destruct (process_env !! name) as [value|]; [|by auto].
  destruct (decide (trim value = [])); auto.
Qed.

Lemma missing_not_empty (name : jsstring) :
  missing_in process_env name → ¬ empty_in process_env name.
Proof. unfold missing_in, empty_in. intros ->. tauto. Qed.

Lemma present_not_missing (name : jsstring) :
  present_in process_env name → ¬ missing_in process_env name.
Proof. unfold missing_in, present_in. intros H Hn. by rewrite Hn in H. Qed.

Lemma present_not_empty (name : jsstring) :
  present_in process_env name → ¬ empty_in process_env name.
Proof. unfold empty_in, present_in. destruct (process_env !! name); tauto. Qed.

Lemma present_in_value (name : jsstring) :
  present_in process_env name →
  ∃ value, process_env !! name = Some value ∧ trim value ≠ [].
Proof. unfold present_in. destruct (process_env !! name); [eauto | done]. Qed.

Lemma classify_step (missing empty : list jsstring) (varName : jsstring) :
  classify process_env (missing, empty) varName =
  (missing ++ (if decide (missing_in process_env varName) then [varName] else []),
   empty ++ (if decide (empty_in process_env varName) then [varName] else [])).
Proof.
  unfold classify, process_env_get.
  destruct (decide (missing_in process_env varName)) as [Hm|Hm];
    destruct (decide (empty_in process_env varName)) as [He|He];
    unfold missing_in, empty_in in *;
    destruct (process_env !! varName) as [value|]; try done.
  - by rewrite app_nil_r.
  - by rewrite bool_decide_eq_true_2, app_nil_r.
  - by rewrite bool_decide_eq_false_2, !app_nil_r.
Qed.

Lemma foldl_classify (vars missing empty : list jsstring) :
  foldl (classify process_env) (missing, empty) vars =
  (missing ++ filter (missing_in process_env) vars,
   empty ++ filter (empty_in process_env) vars).
Proof.
  revert missing empty.
  induction vars as [|name vars IH]; intros missing empty.
  - by rewrite !filter_nil, !app_nil_r.
  - cbn [foldl]. rewrite classify_step, IH, !filter_cons.
    destruct (decide (missing_in process_env name)),
             (decide (empty_in process_env name));
      by rewrite <- ?app_assoc, ?app_nil_r.
Qed.

(** After the loop, [missing] holds the names the source does not define
    and [empty] the ones whose value is blank, each in the order of the
    declared list. *)
Lemma scan_filter (vars : list jsstring) :
  scan process_env vars =
  (filter (missing_in process_env) vars, filter (empty_in process_env) vars).
Proof. unfold scan. by rewrite foldl_classify. Qed.

Lemma all_present_filter (vars : list jsstring) :
  Forall (present_in process_env) vars →
  filter (missing_in process_env) vars = [] ∧ filter (empty_in process_env) vars = [].
Proof.
  induction 1 as [|name vars Hp _ [IHm IHe]]; [done|].
  rewrite !filter_cons, IHm, IHe.
  destruct (decide (missing_in _ _)) as [Hm|_];
    [by apply present_not_missing in Hp|].
  destruct (decide (empty_in _ _)) as [He|_];
    [by apply present_not_empty in Hp|done].
Qed.

Lemma some_invalid_filter (vars : list jsstring) :
  ¬ Forall (present_in process_env) vars →
  ((0 <? length (filter (missing_in process_env) vars))%nat
   || (0 <? length (filter (empty_in process_env) vars))%nat) = true.
Proof.
  intros H. apply (not_Forall_Exists _) in H.
  apply Exists_exists in H as (name & Hin & Hn).
  apply orb_true_iff.
  destruct (classification name) as [Hp|[Hm|He]]; [done| |].
  - left. apply Nat.ltb_lt.
    assert (name ∈ filter (missing_in process_env) vars) as Hf
      by by apply list_elem_of_filter.
    destruct (filter _ vars); [by apply not_elem_of_nil in Hf | simpl; lia].
  - right. apply Nat.ltb_lt.
    assert (name ∈ filter (empty_in process_env) vars) as Hf
      by by apply list_elem_of_filter.
    destruct (filter _ vars); [by apply not_elem_of_nil in Hf | simpl; lia].
Qed.

Lemma collect_acc_lookup (vars : list jsstring) (acc : gmap jsstring jsval)
    (name : jsstring) :
  foldl (λ acc key, <[key := process_env_get process_env key]> acc) acc vars !! name =
  if decide (name ∈ vars) then Some (process_env_get process_env name)
  else acc !! name.
Proof.
  revert acc. induction vars as [|key vars IH]; intros acc.
  - by rewrite decide_False by apply not_elem_of_nil.
  - cbn [foldl]. rewrite IH.
    destruct (decide (name ∈ vars)) as [Hin|Hin].
    + by rewrite decide_True by (by right).
    + destruct (decide (name = key)) as [->|Hne].
      * by rewrite decide_True, lookup_insert_eq by left.
      * rewrite lookup_insert_ne by done.
        rewrite decide_False; [done|].
        by intros [?|?]%elem_of_cons.
Qed.

(** The object of the [reduce] has exactly the names of the list, each
    bound to what [process.env] holds for it. *)
Lemma collect_lookup (vars : list jsstring) (name : jsstring) :
  collect process_env vars !! name =
  if decide (name ∈ vars) then Some (process_env_get process_env name) else None.
Proof. unfold collect. by rewrite collect_acc_lookup, lookup_empty. Qed.

Lemma validateClientEnv_passes :
  Forall (present_in process_env) requiredClientVars →
  validateClientEnv process_env = Normal (collect process_env requiredClientVars).
Proof.
  intros [Hm He]%all_present_filter.
  unfold validateClientEnv. by rewrite scan_filter, Hm, He.
Qed.

Lemma validateClientEnv_fails :
  ¬ Forall (present_in process_env) requiredClientVars →
  validateClientEnv process_env =
  Throw (join LF (clientErrorParts
                    (filter (missing_in process_env) requiredClientVars)
                    (filter (empty_in process_env) requiredClientVars))).
Proof.
  intros H%some_invalid_filter.
  unfold validateClientEnv. by rewrite scan_filter, H.
Qed.

Lemma validateServerEnv_passes :
  Forall (present_in process_env) requiredServerVars →
  validateServerEnv false process_env = Normal (collect process_env requiredServerVars).
Proof.
  intros [Hm He]%all_present_filter.
  unfold validateServerEnv. by rewrite scan_filter, Hm, He.
Qed.

Lemma validateServerEnv_fails :
  ¬ Forall (present_in process_env) requiredServerVars →
  validateServerEnv false process_env =
  Throw (join LF (serverErrorParts
                    (filter (missing_in process_env) requiredServerVars)
                    (filter (empty_in process_env) requiredServerVars))).
Proof.
  intros H%some_invalid_filter.
  unfold validateServerEnv. by rewrite scan_filter, H.
Qed.

End validation.

(** ** The orchestrator and the messages *)

Section orchestrator.

Context (process_env : gmap jsstring jsstring).

Lemma validateClientEnv_Normal (clientEnv : gmap jsstring jsval) :
  validateClientEnv process_env = Normal clientEnv →
  Forall (present_in process_env) requiredClientVars
  ∧ clientEnv = collect process_env requiredClientVars.
Proof.
  destruct (decide (Forall (present_in process_env) requiredClientVars)) as [H|H].
  - rewrite validateClientEnv_passes by done. by intros [= <-].
  - by rewrite validateClientEnv_fails.
Qed.

Lemma validateServerEnv_Normal (window_defined : bool) (serverEnv : gmap jsstring jsval) :
  validateServerEnv window_defined process_env = Normal serverEnv →
  if window_defined then serverEnv = ∅
  else Forall (present_in process_env) requiredServerVars
       ∧ serverEnv = collect process_env requiredServerVars.
Proof.
  destruct window_defined; [by intros [= <-]|].
  destruct (decide (Forall (present_in process_env) requiredServerVars)) as [H|H].
  - rewrite validateServerEnv_passes by done. by intros [= <-].
  - by rewrite validateServerEnv_fails.
Qed.

Lemma validateEnv_unfold (window_defined : bool) :
  validateEnv window_defined process_env =
  match validateClientEnv process_env with
  | Throw message => Throw message
  | Normal clientEnv =>
      match validateServerEnv window_defined process_env with
      | Throw message => Throw message
      | Normal serverEnv => Normal (serverEnv ∪ (clientEnv ∪ ∅))
      end
  end.
Proof. reflexivity. Qed.

Lemma merged_lookup (window_defined : bool) (name : jsstring) :
  merged process_env window_defined !! name =
  if decide (name ∈ validated_names window_defined)
  then Some (process_env_get process_env name) else None.
Proof.
  unfold merged, validated_names.
  rewrite lookup_union, lookup_union, lookup_empty, collect_lookup.
  destruct window_defined.
  - rewrite lookup_empty, app_nil_r.
    by destruct (decide (name ∈ requiredClientVars)).
  - rewrite collect_lookup.
    destruct (decide (name ∈ requiredClientVars)) as [Hc|Hc],
             (decide (name ∈ requiredServerVars)) as [Hs|Hs];
      destruct (decide (name ∈ requiredClientVars ++ requiredServerVars)) as [H|H];
      try done; rewrite elem_of_app in H; tauto.
Qed.

Lemma validateEnv_passes (window_defined : bool) :
  Forall (present_in process_env) (validated_names window_defined) →
  validateEnv window_defined process_env = Normal (merged process_env window_defined).
Proof.
  unfold validated_names. intros [Hc Hs]%Forall_app.
  rewrite validateEnv_unfold, validateClientEnv_passes by done.
  destruct window_defined; [done|].
  by rewrite validateServerEnv_passes.
Qed.

Lemma validateEnv_Normal (window_defined : bool) (env : gmap jsstring jsval) :
  validateEnv window_defined process_env = Normal env →
  Forall (present_in process_env) (validated_names window_defined)
  ∧ env = merged process_env window_defined.
Proof.
  rewrite validateEnv_unfold. unfold validated_names, merged.
  destruct (validateClientEnv process_env) as [clientEnv|] eqn:Hc; [|done].
  destruct (validateServerEnv window_defined process_env) as [serverEnv|] eqn:Hs;
    [|done].
  apply validateClientEnv_Normal in Hc as [Hc ->].
  apply validateServerEnv_Normal in Hs.
  intros [= <-]. destruct window_defined.
  - subst serverEnv. by rewrite app_nil_r.
  - destruct Hs as [Hs ->]. split; [by apply Forall_app|done].
Qed.

Lemma validateEnv_client_fails (window_defined : bool) :
  ¬ Forall (present_in process_env) requiredClientVars →
  validateEnv window_defined process_env = validateClientEnv process_env.
Proof.
  intros H. by rewrite validateEnv_unfold, validateClientEnv_fails.
Qed.

Lemma push_names_cons (title name : jsstring) (names errorParts : list jsstring) :
  push_names title (name :: names) errorParts =
  errorParts ++ title :: map entry (name :: names) ++ [[]].
Proof. unfold push_names. cbn [length Nat.ltb Nat.leb]. by rewrite <- app_assoc. Qed.

Lemma push_names_app (title : jsstring) (names errorParts : list jsstring) :
  ∃ added, push_names title names errorParts = errorParts ++ added.
Proof.
  unfold push_names. destruct (0 <? length names)%nat.
  - eexists. by rewrite <- app_assoc.
  - exists []. by rewrite app_nil_r.
Qed.

Lemma push_names_head (title first : jsstring) (names errorParts : list jsstring) :
  ∃ rest, push_names title names (first :: [] :: errorParts) = first :: [] :: rest.
Proof. unfold push_names. destruct (0 <? length names)%nat; simpl; eauto. Qed.

Lemma client_message_head (missing empty : list jsstring) :
  ∃ rest, join LF (clientErrorParts missing empty) = clientFirstLine ++ LF ++ rest.
Proof.
  unfold clientErrorParts, clientHeading.
  edestruct (push_names_head missing_title) as [r1 ->].
  edestruct (push_names_head empty_title) as [r2 ->].
  cbn [app]. rewrite join_cons2. eauto.
Qed.

Lemma server_message_head (missing empty : list jsstring) :
  ∃ rest, join LF (serverErrorParts missing empty) = serverFirstLine ++ LF ++ rest.
Proof.
  unfold serverErrorParts, serverHeading.
  edestruct (push_names_head missing_title) as [r1 ->].
  edestruct (push_names_head empty_title) as [r2 ->].
  cbn [app]. rewrite join_cons2. eauto.
Qed.

End orchestrator.

Lemma requiredVars_NoDup : NoDup (requiredClientVars ++ requiredServerVars).
Proof. by_computation. Qed.

Lemma requiredClientVars_NoDup : NoDup requiredClientVars.
Proof. by_computation. Qed.

Lemma dom_merged (process_env : gmap jsstring jsstring) (window_defined : bool) :
  dom (merged process_env window_defined) =
  list_to_set requiredClientVars
  ∪ (if window_defined then ∅ else list_to_set requiredServerVars).
Proof.
  apply set_eq. intros name.
  rewrite elem_of_dom, merged_lookup. unfold validated_names.
  destruct window_defined.
  - rewrite app_nil_r, elem_of_union, elem_of_list_to_set.
    destruct (decide (name ∈ requiredClientVars)) as [H|H].
    + split; [by left | by eexists].
    + split; [by intros [? [=]] | intros [?|?%not_elem_of_empty]; done].
  - rewrite elem_of_union, !elem_of_list_to_set, <- elem_of_app.
    destruct (decide (name ∈ requiredClientVars ++ requiredServerVars)) as [H|H].
    + split; [done | by eexists].
    + split; [by intros [? [=]] | done].
Qed.

(** ** The tier predicates *)

Lemma strict_eq_JString (s t : jsstring) :
  strict_eq (JString s) (JString t) = bool_decide (s = t).
Proof. unfold strict_eq. apply bool_decide_ext. split; [by intros [= ->] | by intros ->]. Qed.

Lemma load_unfold (window_defined : bool) (process_env : gmap jsstring jsstring) :
  load window_defined process_env =
  match validateEnv window_defined process_env with
  | Throw message => Throw message
  | Normal env =>
      Normal {| env := env;
                isProduction := strict_eq (get env APP_ENV) (JString (js "production"));
                isDevelopment := strict_eq (get env APP_ENV) (JString (js "development"));
                isStaging := strict_eq (get env APP_ENV) (JString (js "staging")) |}
  end.
Proof. reflexivity. Qed.

(** When the module loads, the source defines the tier with a non-blank
    value, and each predicate compares that value with its literal. *)
Lemma load_Normal (window_defined : bool) (process_env : gmap jsstring jsstring)
    (module : exports) :
  load window_defined process_env = Normal module →
  ∃ tier,
    process_env !! APP_ENV = Some tier
    ∧ trim tier ≠ []
    ∧ isDevelopment module = bool_decide (tier = js "development")
    ∧ isStaging module = bool_decide (tier = js "staging")
    ∧ isProduction module = bool_decide (tier = js "production").
Proof.
  rewrite load_unfold.
  destruct (validateEnv window_defined process_env) as [env|] eqn:Hv; [|done].
  apply validateEnv_Normal in Hv as [Hall ->].
  assert (APP_ENV ∈ validated_names window_defined) as Hin.
  { unfold validated_names. apply elem_of_app. left. by_computation. }
  rewrite Forall_forall in Hall.
  destruct (present_in_value process_env APP_ENV (Hall _ Hin)) as (tier & Ht & Hne).
  assert (get (merged process_env window_defined) APP_ENV = JString tier) as Hget.
  { unfold get. rewrite merged_lookup, decide_True by done.
    unfold process_env_get. by rewrite Ht. }
  rewrite Hget, !strict_eq_JString.
  intros Heq. assert (module = tier_flags (merged process_env window_defined) tier)
    as -> by (unfold tier_flags; congruence).
  by exists tier.
Qed.

Lemma load_passes (window_defined : bool) (process_env : gmap jsstring jsstring) :
  Forall (present_in process_env) (validated_names window_defined) →
  ∃ module, load window_defined process_env = Normal module.
Proof.
  intros H. rewrite load_unfold, validateEnv_passes by done. by eexists.
Qed.

(** ** The messages *)

Lemma clientFirstLine_marker :
  ∃ before after, clientFirstLine = before ++ marker ++ after.
Proof. by exists [0x274C; 0x20], (js "!"). Qed.

Lemma serverFirstLine_marker :
  ∃ before after, serverFirstLine = before ++ marker ++ after.
Proof. by exists ([0x274C] ++ js " Server "), (js "!"). Qed.

Lemma client_message_marker (missing empty : list jsstring) :
  isEnvError (join LF (clientErrorParts missing empty)) = true.
Proof.
  destruct (client_message_head missing empty) as [rest ->].
  destruct clientFirstLine_marker as (before & after & ->).
  rewrite <- !app_assoc. apply includes_app.
Qed.

Lemma server_message_marker (missing empty : list jsstring) :
  isEnvError (join LF (serverErrorParts missing empty)) = true.
Proof.
  destruct (server_message_head missing empty) as [rest ->].
  destruct serverFirstLine_marker as (before & after & ->).
  rewrite <- !app_assoc. apply includes_app.
Qed.

Lemma validateClientEnv_Throw (process_env : gmap jsstring jsstring) (message : jsstring) :
  validateClientEnv process_env = Throw message →
  ¬ Forall (present_in process_env) requiredClientVars
  ∧ message = join LF (clientErrorParts
                         (filter (missing_in process_env) requiredClientVars)
                         (filter (empty_in process_env) requiredClientVars)).
Proof.
  destruct (decide (Forall (present_in process_env) requiredClientVars)) as [H|H].
  - by rewrite validateClientEnv_passes.
  - rewrite validateClientEnv_fails by done. by intros [= <-].
Qed.

Lemma validateServerEnv_Throw (window_defined : bool)
    (process_env : gmap jsstring jsstring) (message : jsstring) :
  validateServerEnv window_defined process_env = Throw message →
  window_defined = false
  ∧ ¬ Forall (present_in process_env) requiredServerVars
  ∧ message = join LF (serverErrorParts
                         (filter (missing_in process_env) requiredServerVars)
                         (filter (empty_in process_env) requiredServerVars)).
Proof.
  destruct window_defined; [done|].
  destruct (decide (Forall (present_in process_env) requiredServerVars)) as [H|H].
  - by rewrite validateServerEnv_passes.
  - rewrite validateServerEnv_fails by done. by intros [= <-].
Qed.

(** ** Independence of the two groups *)

Section agree.

Context (source1 source2 : gmap jsstring jsstring).

Lemma agree_scan (vars : list jsstring) :
  Forall (λ name, source1 !! name = source2 !! name) vars →
  scan source1 vars = scan source2 vars.
Proof.
  intros H. unfold scan. generalize (@nil jsstring, @nil jsstring).
  induction H as [|name vars Hname _ IH]; intros arrays; [done|].
  cbn [foldl]. rewrite IH. f_equal.
  unfold classify, process_env_get. by rewrite Hname.
Qed.

Lemma agree_collect (vars : list jsstring) :
  Forall (λ name, source1 !! name = source2 !! name) vars →
  collect source1 vars = collect source2 vars.
Proof.
  intros H. unfold collect. generalize (∅ : gmap jsstring jsval).
  induction H as [|name vars Hname _ IH]; intros acc; [done|].
  cbn [foldl]. rewrite IH. unfold process_env_get. by rewrite Hname.
Qed.

End agree.

(** ** The definitions on concrete inputs *)

Example trim_inner_blanks_kept : trim (js "  a b  ") = js "a b".
Proof. reflexivity. Qed.

Example trim_all_white_space : trim [0x20; 0x09; 0xA0; 0x3000; 0x0A] = [].
Proof. reflexivity. Qed.

Example join_three : join LF [js "a"; []; js "b"] = js "a" ++ [0x0A; 0x0A] ++ js "b".
Proof. reflexivity. Qed.

Example includes_inner : includes (js "x: Validation Failed!") (js "Validation") = true.
Proof. reflexivity. Qed.

(** The source without [NEXT_PUBLIC_SUPABASE_URL] and with an empty
    [NEXT_PUBLIC_PLASMIC_TOKEN]: one missing name, one empty name. *)
Example scan_broken_source :
  scan broken_source requiredClientVars =
  ([js "NEXT_PUBLIC_SUPABASE_URL"], [js "NEXT_PUBLIC_PLASMIC_TOKEN"]).
Proof. vm_compute. reflexivity. Qed.

Example errorParts_broken_source :
  clientErrorParts [js "NEXT_PUBLIC_SUPABASE_URL"] [js "NEXT_PUBLIC_PLASMIC_TOKEN"] =
  [ [0x274C] ++ js " Environment Variable Validation Failed!";
    [];
    js "Required client-side environment variables are not properly configured.";
    [];
    js "Missing variables (not defined in .env.local):";
    js "  - NEXT_PUBLIC_SUPABASE_URL";
    [];
    js "Empty variables (defined but have no value):";
    js "  - NEXT_PUBLIC_PLASMIC_TOKEN";
    [];
    js "How to fix:";
    js "1. Copy .env.example to .env.local:";
    js "   cp .env.example .env.local";
    [];
    js "2. Fill in the missing/empty values in .env.local";
    [];
    js "3. Restart your development server";
    [];
    js "See .env.example for guidance on where to get these values." ].
Proof. vm_compute. reflexivity. Qed.

(** All public names set, tier [production], no secret name, [window]
    defined: the module loads with 12 entries and [isProduction] alone. *)
Example load_public_source :
  match load true public_source with
  | Normal module =>
      size (env module) = 12%nat
      ∧ isProduction module = true
      ∧ isDevelopment module = false
      ∧ isStaging module = false
  | Throw _ => False
  end.
Proof. vm_compute. done. Qed.

(** The same source where [window] is undefined: the secret names are
    validated, and all five are missing. *)
Example validateEnv_public_source_server :
  validateEnv false public_source =
  Throw (join LF (serverErrorParts requiredServerVars [])).
Proof. vm_compute. reflexivity. Qed.

(** A value with blanks around it is stored as it is. *)
Example validateEnv_full_source_value :
  match validateEnv false full_source with
  | Normal env => env !! js "OPAY_SECRET_KEY" = Some (JString (js " Value 1 "))
  | Throw _ => False
  end.
Proof. vm_compute. reflexivity. Qed.

(** ** The claims *)

(** C1. In a context where [window] is defined, [validateServerEnv]
    returns the empty object and does not throw, whatever the source holds
    for the secret names. *)
Theorem validateServerEnv_window_defined (process_env : gmap jsstring jsstring) :
  validateServerEnv true process_env = Normal ∅.
Proof. reflexivity. Qed.

(** C2, as stated, fails where [window] is defined: on [public_source] both
    validators return, and the merged object has the 12 public names only. *)
Lemma browser_keys_counterexample :
  ∃ clientEnv serverEnv env,
    validateClientEnv public_source = Normal clientEnv
    ∧ validateServerEnv true public_source = Normal serverEnv
    ∧ validateEnv true public_source = Normal env
    ∧ size (dom env) = 12%nat
    ∧ dom env ≠ list_to_set (requiredClientVars ++ requiredServerVars).
Proof.
  assert (Forall (present_in public_source) requiredClientVars) as Hc
    by by_computation.
  exists (collect public_source requiredClientVars), ∅, (merged public_source true).
  split; [by apply validateClientEnv_passes|].
  split; [reflexivity|].
  split; [apply validateEnv_passes; unfold validated_names; by rewrite app_nil_r|].
  rewrite dom_merged, union_empty_r_L. split.
  - rewrite size_list_to_set; [reflexivity | apply requiredClientVars_NoDup].
  - intros Heq.
    assert (js "OPAY_SECRET_KEY" ∈@{gset jsstring} list_to_set requiredClientVars) as Hin.
    { rewrite Heq, elem_of_list_to_set. by_computation. }
    rewrite elem_of_list_to_set in Hin. revert Hin. by_computation.
Qed.

(** C2, amended. When both validators return, the keys of the object
    [validateEnv] returns are the 12 public names and, where [window] is
    undefined, the 5 secret names as well: 17 keys there, 12 where
    [window] is defined. *)
Theorem merged_keys (window_defined : bool) (process_env : gmap jsstring jsstring)
    (clientEnv serverEnv : gmap jsstring jsval) :
  validateClientEnv process_env = Normal clientEnv →
  validateServerEnv window_defined process_env = Normal serverEnv →
  ∃ env, validateEnv window_defined process_env = Normal env
    ∧ dom env = list_to_set requiredClientVars
                ∪ (if window_defined then ∅ else list_to_set requiredServerVars)
    ∧ size (dom env) = (if window_defined then 12 else 17)%nat.
Proof.
  intros [Hc ->]%validateClientEnv_Normal Hs%validateServerEnv_Normal.
  exists (merged process_env window_defined).
  split.
  { apply validateEnv_passes. unfold validated_names.
    apply Forall_app. split; [done|]. destruct window_defined; [done|]. apply Hs. }
  split; [apply dom_merged|].
  rewrite dom_merged. destruct window_defined.
  - rewrite union_empty_r_L, size_list_to_set;
      [reflexivity | apply requiredClientVars_NoDup].
  - rewrite <- list_to_set_app_L, size_list_to_set;
      [reflexivity | apply requiredVars_NoDup].
Qed.

Lemma merged_keys_witness :
  ∃ env, validateEnv false full_source = Normal env
    ∧ dom env = list_to_set requiredClientVars ∪ list_to_set requiredServerVars
    ∧ size (dom env) = 17%nat.
Proof.
  apply (merged_keys false full_source
           (collect full_source requiredClientVars)
           (collect full_source requiredServerVars)).
  - apply validateClientEnv_passes. by_computation.
  - apply validateServerEnv_passes. by_computation.
Defined.

(** C3. When some required public name is not defined in the source,
    [validateClientEnv] throws; the [missing] array of the failure holds
    exactly the required public names the source does not define, in the
    order of the declared list, and the message lists them, one entry
    each, under the heading for missing variables. *)
Theorem missing_names_reported (process_env : gmap jsstring jsstring) :
  Exists (missing_in process_env) requiredClientVars →
  ∃ missing empty,
    scan process_env requiredClientVars = (missing, empty)
    ∧ missing = filter (missing_in process_env) requiredClientVars
    ∧ validateClientEnv process_env = Throw (join LF (clientErrorParts missing empty))
    ∧ ∃ after,
        clientErrorParts missing empty =
        clientHeading ++ missing_title :: map entry missing ++ [] :: after.
Proof.
  intros Hex.
  exists (filter (missing_in process_env) requiredClientVars),
         (filter (empty_in process_env) requiredClientVars).
  split; [apply scan_filter|]. split; [done|].
  apply Exists_exists in Hex as (name & Hin & Hm).
  split.
  - apply validateClientEnv_fails. intros Hall.
    rewrite Forall_forall in Hall.
    by apply (present_not_missing process_env name); [apply Hall|].
  - assert (name ∈ filter (missing_in process_env) requiredClientVars) as Hf
      by by apply list_elem_of_filter.
    destruct (filter (missing_in process_env) requiredClientVars)
      as [|first missing]; [by apply not_elem_of_nil in Hf|].
    unfold clientErrorParts. rewrite push_names_cons.
    destruct (push_names_app empty_title
                (filter (empty_in process_env) requiredClientVars)
                (clientHeading ++ missing_title :: map entry (first :: missing) ++ [[]]))
      as [added ->].
    exists (added ++ clientHowToFix).
    rewrite <- !app_assoc. f_equal.
    rewrite <- !app_comm_cons, <- !app_assoc. reflexivity.
Qed.

Lemma missing_names_reported_witness :
  ∃ missing empty,
    scan broken_source requiredClientVars = (missing, empty)
    ∧ missing = filter (missing_in broken_source) requiredClientVars
    ∧ validateClientEnv broken_source = Throw (join LF (clientErrorParts missing empty))
    ∧ ∃ after,
        clientErrorParts missing empty =
        clientHeading ++ missing_title :: map entry missing ++ [] :: after.
Proof.
  apply (missing_names_reported broken_source).
  apply (bool_decide_unpack _). vm_compute. exact I.
Defined.

(** C4. When a required public name is defined with a value that trims to
    the empty string, [validateClientEnv] throws; the name is in the
    [empty] array of the failure and not in its [missing] array, and the
    message lists the [empty] array under the heading for empty
    variables. *)
Theorem blank_name_reported (process_env : gmap jsstring jsstring)
    (name value : jsstring) :
  name ∈ requiredClientVars →
  process_env !! name = Some value →
  trim value = [] →
  ∃ missing empty,
    scan process_env requiredClientVars = (missing, empty)
    ∧ validateClientEnv process_env = Throw (join LF (clientErrorParts missing empty))
    ∧ name ∈ empty
    ∧ (name ∉ missing)
    ∧ clientErrorParts missing empty =
      push_names missing_title missing clientHeading
      ++ empty_title :: map entry empty ++ [] :: clientHowToFix.
Proof.
  intros Hin Hv Ht.
  assert (empty_in process_env name) as He by (unfold empty_in; by rewrite Hv).
  exists (filter (missing_in process_env) requiredClientVars),
         (filter (empty_in process_env) requiredClientVars).
  split; [apply scan_filter|].
  split.
  { apply validateClientEnv_fails. intros Hall.
    rewrite Forall_forall in Hall.
    by apply (present_not_empty process_env name); [apply Hall|]. }
  assert (name ∈ filter (empty_in process_env) requiredClientVars) as Hf
    by by apply list_elem_of_filter.
  split; [done|].
  split.
  { rewrite list_elem_of_filter. intros [Hm _].
    by apply (missing_not_empty process_env name). }
  destruct (filter (empty_in process_env) requiredClientVars)
    as [|first empty]; [by apply not_elem_of_nil in Hf|].
  unfold clientErrorParts. rewrite push_names_cons.
  rewrite <- !app_assoc. f_equal.
  rewrite <- !app_comm_cons, <- !app_assoc. reflexivity.
Qed.

Lemma blank_name_reported_witness :
  ∃ missing empty,
    scan broken_source requiredClientVars = (missing, empty)
    ∧ validateClientEnv broken_source = Throw (join LF (clientErrorParts missing empty))
    ∧ js "NEXT_PUBLIC_PLASMIC_TOKEN" ∈ empty
    ∧ (js "NEXT_PUBLIC_PLASMIC_TOKEN" ∉ missing)
    ∧ clientErrorParts missing empty =
      push_names missing_title missing clientHeading
      ++ empty_title :: map entry empty ++ [] :: clientHowToFix.
Proof.
  apply (blank_name_reported broken_source (js "NEXT_PUBLIC_PLASMIC_TOKEN") []).
  - apply (bool_decide_unpack _). vm_compute. exact I.
  - vm_compute. reflexivity.
  - reflexivity.
Defined.

(** C5, as stated, fails where [window] is defined: [full_source] defines
    all 17 names with a non-blank value, and neither the object of
    [validateServerEnv] nor the one of [validateEnv] binds a secret name. *)
Lemma browser_secrets_unbound_counterexample :
  Forall (present_in full_source) (requiredClientVars ++ requiredServerVars)
  ∧ full_source !! js "PAYSTACK_SECRET_KEY" = Some (js " Value 1 ")
  ∧ validateServerEnv true full_source = Normal ∅
  ∧ ∃ env, validateEnv true full_source = Normal env
      ∧ env !! js "PAYSTACK_SECRET_KEY" = None.
Proof.
  assert (Forall (present_in full_source) (requiredClientVars ++ requiredServerVars))
    as Hall by by_computation.
  split; [done|]. split; [by_computation|]. split; [reflexivity|].
  exists (merged full_source true). split.
  - apply validateEnv_passes. unfold validated_names. rewrite app_nil_r.
    by apply Forall_app in Hall as [? _].
  - rewrite merged_lookup. apply decide_False.
    unfold validated_names. rewrite app_nil_r. by_computation.
Qed.

(** C5, amended. When the source defines all 17 required names with a
    non-blank value, both validators and [validateEnv] return; every
    public name is bound to the very string of the source, and where
    [window] is undefined so is every secret name. Where [window] is
    defined the secret names are not bound. *)
Theorem values_unmodified (window_defined : bool)
    (process_env : gmap jsstring jsstring) :
  Forall (present_in process_env) (requiredClientVars ++ requiredServerVars) →
  ∃ clientEnv serverEnv env,
    validateClientEnv process_env = Normal clientEnv
    ∧ validateServerEnv window_defined process_env = Normal serverEnv
    ∧ validateEnv window_defined process_env = Normal env
    ∧ (∀ name value,
         name ∈ requiredClientVars → process_env !! name = Some value →
         clientEnv !! name = Some (JString value)
         ∧ env !! name = Some (JString value))
    ∧ (∀ name value,
         name ∈ requiredServerVars → process_env !! name = Some value →
         if window_defined
         then serverEnv !! name = None ∧ env !! name = None
         else serverEnv !! name = Some (JString value)
              ∧ env !! name = Some (JString value)).
Proof.
  intros [Hc Hs]%Forall_app.
  exists (collect process_env requiredClientVars),
         (if window_defined then ∅ else collect process_env requiredServerVars),
         (merged process_env window_defined).
  split; [by apply validateClientEnv_passes|].
  split; [destruct window_defined; [done | by apply validateServerEnv_passes]|].
  split.
  { apply validateEnv_passes. unfold validated_names.
    apply Forall_app. by destruct window_defined. }
  split.
  - intros name value Hin Hv.
    rewrite collect_lookup, merged_lookup. unfold validated_names, process_env_get.
    rewrite !decide_True, Hv; [done | apply elem_of_app; by left | done].
  - intros name value Hin Hv.
    rewrite merged_lookup. unfold validated_names, process_env_get.
    destruct window_defined.
    + split; [apply lookup_empty|]. apply decide_False. rewrite app_nil_r.
      intros Hin'. pose proof requiredVars_NoDup as Hnd.
      apply NoDup_app in Hnd as (_ & Hnd & _). by apply (Hnd name).
    + rewrite collect_lookup. unfold process_env_get.
      rewrite !decide_True, Hv; [done | apply elem_of_app; by right | done].
Qed.

Lemma values_unmodified_witness :
  ∃ clientEnv serverEnv env,
    validateClientEnv full_source = Normal clientEnv
    ∧ validateServerEnv false full_source = Normal serverEnv
    ∧ validateEnv false full_source = Normal env
    ∧ (∀ name value,
         name ∈ requiredClientVars → full_source !! name = Some value →
         clientEnv !! name = Some (JString value)
         ∧ env !! name = Some (JString value))
    ∧ (∀ name value,
         name ∈ requiredServerVars → full_source !! name = Some value →
         serverEnv !! name = Some (JString value)
         ∧ env !! name = Some (JString value)).
Proof.
  apply (values_unmodified false full_source).
  apply (bool_decide_unpack _). vm_compute. exact I.
Defined.

(** C6. When the module loads and the tier variable holds one of the three
    literals, exactly one of [isDevelopment], [isStaging] and
    [isProduction] is true, the one of that literal, and the other two are
    false. *)
Theorem tier_predicates_exactly_one (window_defined : bool)
    (process_env : gmap jsstring jsstring) (module : exports) (tier : jsstring) :
  load window_defined process_env = Normal module →
  process_env !! APP_ENV = Some tier →
  tier ∈ tiers →
  count_true [isDevelopment module; isStaging module; isProduction module] = 1%nat
  ∧ (isDevelopment module = true ↔ tier = js "development")
  ∧ (isStaging module = true ↔ tier = js "staging")
  ∧ (isProduction module = true ↔ tier = js "production").
Proof.
  intros (tier' & Ht & _ & -> & -> & ->)%load_Normal Ht' Hin.
  rewrite Ht in Ht'. injection Ht' as ->.
  rewrite !bool_decide_eq_true. split; [|done].
  unfold tiers in Hin.
  apply elem_of_cons in Hin as [->|Hin]; [reflexivity|].
  apply elem_of_cons in Hin as [->|Hin]; [reflexivity|].
  apply elem_of_cons in Hin as [->|Hin]; [reflexivity|].
  by apply not_elem_of_nil in Hin.
Qed.

Lemma tier_predicates_exactly_one_witness :
  ∃ module,
    load true public_source = Normal module
    ∧ count_true [isDevelopment module; isStaging module; isProduction module] = 1%nat
    ∧ (isDevelopment module = true ↔ js "production" = js "development")
    ∧ (isStaging module = true ↔ js "production" = js "staging")
    ∧ (isProduction module = true ↔ js "production" = js "production").
Proof.
  eexists. split; [reflexivity|].
  refine (tier_predicates_exactly_one true public_source _ (js "production") _ _ _).
  - reflexivity.
  - vm_compute. reflexivity.
  - apply (bool_decide_unpack _). vm_compute. exact I.
Defined.

(** C7. The message of every error a validator throws, and so of every
    error [validateEnv] throws, contains the marker
    [Environment Variable Validation Failed] the error display tests
    for. *)
Theorem thrown_message_has_marker (window_defined : bool)
    (process_env : gmap jsstring jsstring) (message : jsstring) :
  validateClientEnv process_env = Throw message
  ∨ validateServerEnv window_defined process_env = Throw message
  ∨ validateEnv window_defined process_env = Throw message →
  isEnvError message = true.
Proof.
  assert (∀ m, validateClientEnv process_env = Throw m → isEnvError m = true) as Hc.
  { intros m [_ ->]%validateClientEnv_Throw. apply client_message_marker. }
  assert (∀ m, validateServerEnv window_defined process_env = Throw m →
               isEnvError m = true) as Hs.
  { intros m (_ & _ & ->)%validateServerEnv_Throw. apply server_message_marker. }
  intros [H|[H|H]]; [by apply Hc | by apply Hs |].
  rewrite validateEnv_unfold in H.
  destruct (validateClientEnv process_env) as [clientEnv|m]; [|apply Hc; congruence].
  destruct (validateServerEnv window_defined process_env) as [serverEnv|m];
    [done | apply Hs; congruence].
Qed.

Lemma thrown_message_has_marker_witness :
  isEnvError (join LF (serverErrorParts requiredServerVars [])) = true.
Proof.
  apply (thrown_message_has_marker false public_source).
  right. left. vm_compute. reflexivity.
Defined.

(** C8. Where [window] is undefined, when some required public name and
    some required secret name are both missing or empty, [validateEnv]
    throws the error of [validateClientEnv]: its message is the public
    one, and the error [validateServerEnv] would throw on that source, a
    different one, does not surface. *)
Theorem public_error_surfaces (process_env : gmap jsstring jsstring) :
  Exists (λ name, missing_in process_env name ∨ empty_in process_env name)
    requiredClientVars →
  Exists (λ name, missing_in process_env name ∨ empty_in process_env name)
    requiredServerVars →
  ∃ missing empty secret_missing secret_empty,
    scan process_env requiredClientVars = (missing, empty)
    ∧ scan process_env requiredServerVars = (secret_missing, secret_empty)
    ∧ validateClientEnv process_env = Throw (join LF (clientErrorParts missing empty))
    ∧ validateServerEnv false process_env =
      Throw (join LF (serverErrorParts secret_missing secret_empty))
    ∧ validateEnv false process_env = Throw (join LF (clientErrorParts missing empty))
    ∧ join LF (clientErrorParts missing empty)
      ≠ join LF (serverErrorParts secret_missing secret_empty).
Proof.
  assert (∀ vars,
    Exists (λ name, missing_in process_env name ∨ empty_in process_env name) vars →
    ¬ Forall (present_in process_env) vars) as Hbad.
  { intros vars (name & Hin & Hn)%Exists_exists Hall.
    rewrite Forall_forall in Hall. specialize (Hall _ Hin).
    destruct Hn as [Hm|He];
      [by apply (present_not_missing process_env name)
      |by apply (present_not_empty process_env name)]. }
  intros Hc%Hbad Hs%Hbad.
  eexists _, _, _, _.
  split; [apply scan_filter|]. split; [apply scan_filter|].
  split; [by apply validateClientEnv_fails|].
  split; [by apply validateServerEnv_fails|].
  split; [by rewrite validateEnv_client_fails, validateClientEnv_fails|].
  destruct (client_message_head
              (filter (missing_in process_env) requiredClientVars)
              (filter (empty_in process_env) requiredClientVars)) as [r1 ->].
  destruct (server_message_head
              (filter (missing_in process_env) requiredServerVars)
              (filter (empty_in process_env) requiredServerVars)) as [r2 ->].
  intros Heq. apply (f_equal (λ s, s !! 2%nat)) in Heq. discriminate Heq.
Qed.

Lemma public_error_surfaces_witness :
  ∃ missing empty secret_missing secret_empty,
    scan broken_source requiredClientVars = (missing, empty)
    ∧ scan broken_source requiredServerVars = (secret_missing, secret_empty)
    ∧ validateClientEnv broken_source = Throw (join LF (clientErrorParts missing empty))
    ∧ validateServerEnv false broken_source =
      Throw (join LF (serverErrorParts secret_missing secret_empty))
    ∧ validateEnv false broken_source = Throw (join LF (clientErrorParts missing empty))
    ∧ join LF (clientErrorParts missing empty)
      ≠ join LF (serverErrorParts secret_missing secret_empty).
Proof.
  apply (public_error_surfaces broken_source).
  - apply (bool_decide_unpack _). vm_compute. exact I.
  - apply (bool_decide_unpack _). vm_compute. exact I.
Defined.

(** C9. Whatever string the tier variable holds, when every name the
    context validates is defined and non-blank the module loads without
    an error, at most one of [isDevelopment], [isStaging] and
    [isProduction] is true, and all three are false when the tier is none
    of the three literals. *)
Theorem unknown_tier_loads (window_defined : bool)
    (process_env : gmap jsstring jsstring) :
  Forall (present_in process_env) (validated_names window_defined) →
  ∃ module,
    load window_defined process_env = Normal module
    ∧ (count_true [isDevelopment module; isStaging module; isProduction module] ≤ 1)%nat
    ∧ ∀ tier,
        process_env !! APP_ENV = Some tier → tier ∉ tiers →
        isDevelopment module = false
        ∧ isStaging module = false
        ∧ isProduction module = false.
Proof.
  intros [module Hload]%load_passes. exists module. split; [done|].
  apply load_Normal in Hload as (tier & Ht & _ & -> & -> & ->).
  split.
  - repeat case_bool_decide; subst; try discriminate; cbv; lia.
  - intros tier' Ht' Hnot. rewrite Ht in Ht'. injection Ht' as <-.
    unfold tiers in Hnot. rewrite !not_elem_of_cons in Hnot.
    destruct Hnot as (? & ? & ? & _).
    by rewrite !bool_decide_eq_false_2.
Qed.

Lemma unknown_tier_loads_witness :
  ∃ module,
    load true test_source = Normal module
    ∧ (count_true [isDevelopment module; isStaging module; isProduction module] ≤ 1)%nat
    ∧ ∀ tier,
        test_source !! APP_ENV = Some tier → tier ∉ tiers →
        isDevelopment module = false
        ∧ isStaging module = false
        ∧ isProduction module = false.
Proof.
  apply (unknown_tier_loads true test_source).
  apply (bool_decide_unpack _). vm_compute. exact I.
Defined.

(** C10. The outcome of [validateClientEnv], object or error, is the same
    on two sources that agree on the 12 public names; the outcome of
    [validateServerEnv], in either context, is the same on two sources
    that agree on the 5 secret names. *)
Theorem validators_independent (source1 source2 : gmap jsstring jsstring) :
  (Forall (λ name, source1 !! name = source2 !! name) requiredClientVars →
   validateClientEnv source1 = validateClientEnv source2)
  ∧ (Forall (λ name, source1 !! name = source2 !! name) requiredServerVars →
     ∀ window_defined,
       validateServerEnv window_defined source1
       = validateServerEnv window_defined source2).
Proof.
  split.
  - intros H. unfold validateClientEnv.
    by rewrite (agree_scan _ _ _ H), (agree_collect _ _ _ H).
  - intros H [|]; [done|]. unfold validateServerEnv.
    by rewrite (agree_scan _ _ _ H), (agree_collect _ _ _ H).
Qed.

Lemma validators_independent_witness :
  validateClientEnv public_source = validateClientEnv secrets_source
  ∧ validateServerEnv false broken_source = validateServerEnv false public_source.
Proof.
  split.
  - apply (proj1 (validators_independent public_source secrets_source)).
    apply (bool_decide_unpack _). vm_compute. exact I.
  - apply (proj2 (validators_independent broken_source public_source)).
    apply (bool_decide_unpack _). vm_compute. exact I.
Defined.

(** ** Further properties of the validation module *)

Lemma set_all_lookup (vars : list jsstring) (value : jsstring)
    (base : gmap jsstring jsstring) (name : jsstring) :
  set_all vars value base !! name =
  if decide (name ∈ vars) then Some value else base !! name.
Proof.
  induction vars as [|key vars IH]; cbn [set_all foldr].
  - by rewrite decide_False by apply not_elem_of_nil.
  - fold (set_all vars value base).
    destruct (decide (name = key)) as [->|Hne].
    + by rewrite lookup_insert_eq, decide_True by left.
    + rewrite lookup_insert_ne, IH by done.
      destruct (decide (name ∈ vars)) as [Hin|Hin].
      * by rewrite decide_True by (by right).
      * rewrite decide_False; [done|]. by intros [?|?]%elem_of_cons.
Qed.

Lemma push_names_section (title : jsstring) (names errorParts : list jsstring) :
  push_names title names errorParts = errorParts ++ push_names title names [].
Proof.
  unfold push_names. destruct (0 <? length names)%nat.
  - by rewrite <- app_assoc.
  - by rewrite app_nil_r.
Qed.

Lemma load_env (window_defined : bool) (process_env : gmap jsstring jsstring)
    (module : exports) :
  load window_defined process_env = Normal module →
  validateEnv window_defined process_env = Normal (env module).
Proof.
  rewrite load_unfold.
  destruct (validateEnv window_defined process_env) as [e|]; [|done].
  intros Heq. assert (∀ m1 m2 : exports, Normal m1 = Normal m2 → env m1 = env m2)
    as Hinj by (by intros ?? [= ->]).
  apply Hinj in Heq. cbn [env] in Heq. by rewrite Heq.
Qed.

Lemma invalid_not_all_present (process_env : gmap jsstring jsstring)
    (vars : list jsstring) :
  Exists (λ name, missing_in process_env name ∨ empty_in process_env name) vars →
  ¬ Forall (present_in process_env) vars.
Proof.
  intros (name & Hin & Hn)%Exists_exists Hall.
  rewrite Forall_forall in Hall. specialize (Hall _ Hin).
  destruct Hn as [Hm|He];
    [by apply (present_not_missing process_env name)
    |by apply (present_not_empty process_env name)].
Qed.

(** [validateEnv] returns an object exactly when every name the context
    validates is defined with a non-blank value: validation is all or
    nothing. *)
Theorem validateEnv_returns_iff (window_defined : bool)
    (process_env : gmap jsstring jsstring) :
  (∃ env, validateEnv window_defined process_env = Normal env)
  ↔ Forall (present_in process_env) (validated_names window_defined).
Proof.
  split.
  - intros [env Henv]. by apply validateEnv_Normal in Henv as [? _].
  - intros H. eexists. by apply validateEnv_passes.
Qed.

Lemma validateEnv_returns_iff_witness :
  ∃ env, validateEnv true public_source = Normal env.
Proof.
  apply (proj2 (validateEnv_returns_iff true public_source)).
  apply (bool_decide_unpack _). vm_compute. exact I.
Defined.

(** Every property of the object [validateEnv] returns is a string, never
    [undefined], that is non-blank and is the value the source holds for
    that name, a name the context validates. *)
Theorem validated_values_nonblank (window_defined : bool)
    (process_env : gmap jsstring jsstring) (env : gmap jsstring jsval)
    (name : jsstring) (value : jsval) :
  validateEnv window_defined process_env = Normal env →
  env !! name = Some value →
  ∃ s, value = JString s
    ∧ process_env !! name = Some s
    ∧ trim s ≠ []
    ∧ name ∈ validated_names window_defined.
Proof.
  intros [Hall ->]%validateEnv_Normal. rewrite merged_lookup.
  destruct (decide (name ∈ validated_names window_defined)) as [Hin|]; [|done].
  intros [= <-]. rewrite Forall_forall in Hall.
  destruct (present_in_value process_env name (Hall _ Hin)) as (s & Hs & Hne).
  exists s. unfold process_env_get. by rewrite Hs.
Qed.

Lemma validated_values_nonblank_witness :
  ∃ s, JString (js "production") = JString s
    ∧ public_source !! APP_ENV = Some s
    ∧ trim s ≠ []
    ∧ APP_ENV ∈ validated_names true.
Proof.
  apply (validated_values_nonblank true public_source (merged public_source true)).
  - apply validateEnv_passes. apply (bool_decide_unpack _). vm_compute. exact I.
  - vm_compute. reflexivity.
Defined.

(** Where [window] is undefined, when some required secret name is missing
    or empty [validateServerEnv] throws; [missing] and [empty] hold the
    secret names of each kind in the order of the declared list, and the
    lines of the message are the server heading, a section for each
    non-empty array, and the closing lines. *)
Theorem secret_names_reported (process_env : gmap jsstring jsstring) :
  Exists (λ name, missing_in process_env name ∨ empty_in process_env name)
    requiredServerVars →
  ∃ missing empty,
    scan process_env requiredServerVars = (missing, empty)
    ∧ missing = filter (missing_in process_env) requiredServerVars
    ∧ empty = filter (empty_in process_env) requiredServerVars
    ∧ validateServerEnv false process_env =
      Throw (join LF (serverErrorParts missing empty))
    ∧ serverErrorParts missing empty =
      serverHeading ++ push_names missing_title missing []
      ++ push_names empty_title empty [] ++ serverHowToFix.
Proof.
  intros H%invalid_not_all_present. eexists _, _.
  split; [apply scan_filter|]. split; [done|]. split; [done|].
  split; [by apply validateServerEnv_fails|].
  unfold serverErrorParts.
  rewrite (push_names_section empty_title), (push_names_section missing_title).
  by rewrite <- !app_assoc.
Qed.

Lemma secret_names_reported_witness :
  ∃ missing empty,
    scan public_source requiredServerVars = (missing, empty)
    ∧ missing = filter (missing_in public_source) requiredServerVars
    ∧ empty = filter (empty_in public_source) requiredServerVars
    ∧ validateServerEnv false public_source =
      Throw (join LF (serverErrorParts missing empty))
    ∧ serverErrorParts missing empty =
      serverHeading ++ push_names missing_title missing []
      ++ push_names empty_title empty [] ++ serverHowToFix.
Proof.
  apply (secret_names_reported public_source).
  apply (bool_decide_unpack _). vm_compute. exact I.
Defined.

(** When every public name is defined and non-blank and some secret name
    is missing or empty, [validateEnv] throws the error of
    [validateServerEnv] where [window] is undefined, and returns an object
    on the same source where [window] is defined. *)
Theorem secret_error_where_reachable (process_env : gmap jsstring jsstring) :
  Forall (present_in process_env) requiredClientVars →
  Exists (λ name, missing_in process_env name ∨ empty_in process_env name)
    requiredServerVars →
  (∃ message, validateServerEnv false process_env = Throw message
     ∧ validateEnv false process_env = Throw message)
  ∧ ∃ env, validateEnv true process_env = Normal env.
Proof.
  intros Hc Hs%invalid_not_all_present. split.
  - eexists. split; [by apply validateServerEnv_fails|].
    by rewrite validateEnv_unfold, validateClientEnv_passes,
      validateServerEnv_fails.
  - eexists. apply validateEnv_passes. unfold validated_names.
    by rewrite app_nil_r.
Qed.

Lemma secret_error_where_reachable_witness :
  (∃ message, validateServerEnv false public_source = Throw message
     ∧ validateEnv false public_source = Throw message)
  ∧ ∃ env, validateEnv true public_source = Normal env.
Proof.
  apply (secret_error_where_reachable public_source).
  - apply (bool_decide_unpack _). vm_compute. exact I.
  - apply (bool_decide_unpack _). vm_compute. exact I.
Defined.

(** The loop classifies every name once: [missing] and [empty] keep the
    order of the list they are taken from, no name is in both, and with the
    names that are present they account for the whole list. *)
Theorem scan_partition (process_env : gmap jsstring jsstring)
    (vars : list jsstring) :
  sublist (scan process_env vars).1 vars
  ∧ sublist (scan process_env vars).2 vars
  ∧ (∀ name, ¬ (name ∈ (scan process_env vars).1 ∧ name ∈ (scan process_env vars).2))
  ∧ (length (scan process_env vars).1 + length (scan process_env vars).2
     + length (filter (present_in process_env) vars) = length vars)%nat.
Proof.
  rewrite scan_filter. cbn [fst snd].
  split; [apply sublist_filter|]. split; [apply sublist_filter|]. split.
  - intros name [[Hm _]%list_elem_of_filter [He _]%list_elem_of_filter].
    by apply (missing_not_empty process_env name).
  - induction vars as [|name vars IH]; [done|].
    rewrite !filter_cons.
    destruct (decide (missing_in process_env name)) as [Hm|Hm],
             (decide (empty_in process_env name)) as [He|He],
             (decide (present_in process_env name)) as [Hp|Hp];
      cbn [length]; try lia; exfalso.
    + by apply (missing_not_empty process_env name).
    + by apply (missing_not_empty process_env name).
    + by apply (present_not_missing process_env name).
    + by apply (present_not_empty process_env name).
    + by destruct (classification process_env name) as [?|[?|?]].
Qed.

(** Giving a non-blank value to each name the loop of [validateClientEnv]
    lists is enough: validation then passes, the listed names are bound
    to the new value and every other public name to the value it had. *)
Theorem listed_names_suffice (process_env : gmap jsstring jsstring)
    (value : jsstring) (missing empty : list jsstring) :
  trim value ≠ [] →
  scan process_env requiredClientVars = (missing, empty) →
  ∃ clientEnv,
    validateClientEnv (set_all (missing ++ empty) value process_env) = Normal clientEnv
    ∧ (∀ name, name ∈ missing ++ empty → clientEnv !! name = Some (JString value))
    ∧ (∀ name, name ∈ requiredClientVars → name ∉ missing ++ empty →
         clientEnv !! name = Some (process_env_get process_env name)).
Proof.
  intros Hv. rewrite scan_filter. intros [= <- <-].
  set (listed := filter (missing_in process_env) requiredClientVars
                 ++ filter (empty_in process_env) requiredClientVars).
  assert (∀ name, name ∈ listed → name ∈ requiredClientVars) as Hsub.
  { intros name [[_ ?]%list_elem_of_filter|[_ ?]%list_elem_of_filter]%elem_of_app;
      done. }
  eexists. split; [apply validateClientEnv_passes|split].
  - apply Forall_forall. intros name Hin. unfold present_in.
    rewrite set_all_lookup. destruct (decide (name ∈ listed)) as [|Hnot]; [done|].
    destruct (classification process_env name) as [Hp|[Hm|He]]; [done| |];
      exfalso; apply Hnot, elem_of_app;
      [left|right]; by apply list_elem_of_filter.
  - intros name Hin. rewrite collect_lookup, decide_True by by apply Hsub.
    unfold process_env_get. by rewrite set_all_lookup, decide_True.
  - intros name Hin Hnot. rewrite collect_lookup, decide_True by done.
    unfold process_env_get. by rewrite set_all_lookup, decide_False.
Qed.

Lemma listed_names_suffice_witness :
  ∃ clientEnv,
    validateClientEnv
      (set_all ([js "NEXT_PUBLIC_SUPABASE_URL"] ++ [js "NEXT_PUBLIC_PLASMIC_TOKEN"])
         (js "x") broken_source) = Normal clientEnv
    ∧ (∀ name,
         name ∈ [js "NEXT_PUBLIC_SUPABASE_URL"] ++ [js "NEXT_PUBLIC_PLASMIC_TOKEN"] →
         clientEnv !! name = Some (JString (js "x")))
    ∧ (∀ name, name ∈ requiredClientVars →
         name ∉ [js "NEXT_PUBLIC_SUPABASE_URL"] ++ [js "NEXT_PUBLIC_PLASMIC_TOKEN"] →
         clientEnv !! name = Some (process_env_get broken_source name)).
Proof.
  apply (listed_names_suffice broken_source (js "x")).
  - vm_compute. discriminate.
  - vm_compute. reflexivity.
Defined.

(** The guard [isServer()] tells whether the secret names can be read from
    the exported [env]: where it is true each of them is the non-blank
    string of the source, where it is false each of them is [undefined]. *)
Theorem isServer_guards_secrets (window_defined : bool)
    (process_env : gmap jsstring jsstring) (module : exports) (name : jsstring) :
  load window_defined process_env = Normal module →
  name ∈ requiredServerVars →
  if isServer window_defined
  then ∃ s, process_env !! name = Some s ∧ trim s ≠ []
         ∧ get (env module) name = JString s
  else get (env module) name = JUndefined.
Proof.
  intros [Hall Henv]%load_env%validateEnv_Normal Hin.
  unfold get. rewrite Henv, merged_lookup. unfold validated_names, isServer.
  destruct window_defined; cbn [negb].
  - rewrite decide_False; [done|]. rewrite app_nil_r. intros Hin'.
    pose proof requiredVars_NoDup as Hnd.
    apply NoDup_app in Hnd as (_ & Hnd & _). by apply (Hnd name).
  - assert (name ∈ requiredClientVars ++ requiredServerVars) as Hin'
      by (apply elem_of_app; by right).
    rewrite decide_True by done. rewrite Forall_forall in Hall.
    destruct (present_in_value process_env name (Hall _ Hin')) as (s & Hs & Hne).
    exists s. unfold process_env_get. by rewrite Hs.
Qed.

Lemma isServer_guards_secrets_witness :
  ∃ module, load true full_source = Normal module
    ∧ get (env module) (js "REMITA_API_KEY") = JUndefined.
Proof.
  eexists. split; [reflexivity|].
  refine (isServer_guards_secrets true full_source _ (js "REMITA_API_KEY") _ _).
  - reflexivity.
  - apply (bool_decide_unpack _). vm_compute. exact I.
Defined.



(** ** What the text of a message shows *)

Lemma startsWith_prefix (s t : jsstring) :
  startsWith s t = true ↔ ∃ after, s = t ++ after.
Proof.
  revert s. induction t as [|c t IH]; intros s; cbn [startsWith].
  - split; [by exists s | done].
  - destruct s as [|d s].
    + split; [done | by intros [after [=]]].
    + rewrite andb_true_iff, N.eqb_eq, IH. split.
      * intros [-> [after ->]]. by exists after.
      * intros [after [= -> ->]]. eauto.
Qed.

Lemma includes_infix (s t : jsstring) :
  includes s t = true ↔ ∃ before after, s = before ++ t ++ after.
Proof.
  induction s as [|d s IH]; rewrite includes_unfold, orb_true_iff, startsWith_prefix.
  - split.
    + intros [[after H]|[=]]. by exists [], after.
    + intros (before & after & H). left.
      destruct before; [by exists after | done].
  - rewrite IH. split.
    + intros [[after H]|(before & after & ->)].
      * by exists [], after.
      * by exists (d :: before), after.
    + intros (before & after & H). destruct before as [|d' before].
      * left. by exists after.
      * right. injection H as -> ->. by exists before, after.
Qed.

Lemma includes_self (t : jsstring) : includes t t = true.
Proof. apply includes_infix. exists [], []. by rewrite app_nil_r. Qed.

Lemma includes_join_part (sep p t : jsstring) (parts : list jsstring) :
  p ∈ parts → includes p t = true → includes (join sep parts) t = true.
Proof.
  rewrite !includes_infix. intros Hin (b & a & ->).
  induction parts as [|q parts IH]; [by apply not_elem_of_nil in Hin|].
  destruct parts as [|q' parts].
  - apply list_elem_of_singleton in Hin as <-. cbn [join]. eauto.
  - rewrite join_cons2. apply elem_of_cons in Hin as [<-|Hin].
    + exists b, (a ++ sep ++ join sep (q' :: parts)). by rewrite <- !app_assoc.
    + destruct (IH Hin) as (b' & a' & ->).
      exists (q ++ sep ++ b'), a'. by rewrite <- !app_assoc.
Qed.

(** A text without the separator that occurs in a joined string occurs in
    one of the parts. *)
Lemma includes_join_inv (c : N) (t : jsstring) (parts : list jsstring) :
  t ≠ [] → c ∉ t →
  includes (join [c] parts) t = true →
  ∃ p, p ∈ parts ∧ includes p t = true.
Proof.
  intros Hne Hc. induction parts as [|q parts IH].
  - cbn [join]. rewrite includes_infix. intros (b & a & H).
    destruct b, t; done.
  - destruct parts as [|q' parts].
    + cbn [join]. intros H. exists q. split; [by left | done].
    + rewrite join_cons2. set (J := join [c] (q' :: parts)) in *. clearbody J.
      intros (b & a & H)%includes_infix.
      assert ((∃ b' a', q = b' ++ t ++ a') ∨ ∃ b' a', J = b' ++ t ++ a') as [Hq|Hr].
      { apply app_eq_inv in H as [(k & -> & Hk)|(k & -> & Hk)].
        - apply app_eq_inv in Hk as [(k2 & -> & Hk2)|(k2 & -> & Hk2)].
          + destruct k2 as [|c' k2].
            * left. exists b, []. by rewrite !app_nil_r.
            * cbn [app] in Hk2. injection Hk2 as <- _. exfalso. apply Hc.
              apply elem_of_app. right. by left.
          + left. by exists b, k2.
        - destruct k as [|c' k].
          + rewrite app_nil_l in Hk. destruct t as [|c' t]; [done|].
            cbn [app] in Hk. injection Hk as <- _. exfalso. apply Hc. by left.
          + cbn [app] in Hk. injection Hk as _ ->. right. by exists k, a. }
      * exists q. split; [by left | by apply includes_infix].
      * destruct IH as (p & Hin & Hp); [by apply includes_infix|].
        exists p. split; [by right | done].
Qed.

Lemma elem_of_push_names (title part : jsstring) (names : list jsstring) :
  part ∈ push_names title names [] ↔
  names ≠ [] ∧ (part = title ∨ part ∈ map entry names ∨ part = []).
Proof.
  unfold push_names. destruct names as [|name names]; cbn [length Nat.ltb Nat.leb].
  - split; [intros Hin; by apply not_elem_of_nil in Hin | by intros [? _]].
  - rewrite app_nil_l. cbn [app].
    rewrite elem_of_cons, elem_of_app, list_elem_of_singleton.
    split; [intros H; split; [done|exact H] | by intros [_ H]].
Qed.

Lemma elem_of_map_entry (part : jsstring) (names : list jsstring) :
  part ∈ map entry names ↔ ∃ name, part = entry name ∧ name ∈ names.
Proof. apply (list_elem_of_fmap entry). Qed.

Section message_text.

Context (process_env : gmap jsstring jsstring).
Context (heading closing vars : list jsstring).

(** The fixed lines of the message name no variable, an entry names its
    own variable only, and no entry or heading has a line feed. *)
Context (Hfixed :
  Forall (λ part, Forall (λ name, includes part (entry name) = false) vars)
    (heading ++ [missing_title; empty_title; []] ++ closing)).
Context (Hentry :
  Forall (λ a, Forall (λ b, includes (entry a) (entry b) = true → a = b) vars) vars).
Context (Hfeed : Forall (λ name, 0x0A ∉ entry name) vars).
Context (Htitles :
  Forall (λ part, includes part missing_title = false
                  ∧ includes part empty_title = false)
    (heading ++ [[]] ++ closing ++ map entry vars)).

Lemma part_of_lines (missing empty : list jsstring) (part : jsstring) :
  part ∈ heading ++ push_names missing_title missing []
         ++ push_names empty_title empty [] ++ closing ↔
  part ∈ heading
  ∨ (missing ≠ [] ∧ (part = missing_title ∨ part ∈ map entry missing ∨ part = []))
  ∨ (empty ≠ [] ∧ (part = empty_title ∨ part ∈ map entry empty ∨ part = []))
  ∨ part ∈ closing.
Proof. by rewrite !elem_of_app, !elem_of_push_names. Qed.

Lemma fixed_line_names_nothing (part name : jsstring) :
  part ∈ heading ++ [missing_title; empty_title; []] ++ closing →
  name ∈ vars → includes part (entry name) = false.
Proof.
  intros Hp Hn. rewrite Forall_forall in Hfixed.
  specialize (Hfixed _ Hp). rewrite Forall_forall in Hfixed. by apply Hfixed.
Qed.

Lemma entry_names_itself (a b : jsstring) :
  a ∈ vars → b ∈ vars → includes (entry a) (entry b) = true → a = b.
Proof.
  intros Ha Hb. rewrite Forall_forall in Hentry.
  specialize (Hentry _ Ha). rewrite Forall_forall in Hentry. by apply Hentry.
Qed.

Lemma entry_in_lines (name : jsstring) :
  name ∈ vars →
  includes
    (join LF (heading
              ++ push_names missing_title (filter (missing_in process_env) vars) []
              ++ push_names empty_title (filter (empty_in process_env) vars) []
              ++ closing))
    (entry name) = true
  ↔ missing_in process_env name ∨ empty_in process_env name.
Proof.
  intros Hin. split.
  - intros H. apply includes_join_inv in H as (part & Hpart & Hinc).
    2:{ unfold entry. simpl. discriminate. }
    2:{ rewrite Forall_forall in Hfeed. by apply Hfeed. }
    assert (part ∈ heading ++ [missing_title; empty_title; []] ++ closing →
            False) as Hfix.
    { intros Hp. by rewrite (fixed_line_names_nothing part name) in Hinc. }
    apply part_of_lines in Hpart
      as [Hp|[[_ [->|[Hp| ->]]]|[[_ [->|[Hp| ->]]]|Hp]]].
    + exfalso. apply Hfix. apply elem_of_app. by left.
    + exfalso. apply Hfix. apply elem_of_app. right. by left.
    + apply elem_of_map_entry in Hp as (other & -> & [Hm Ho]%list_elem_of_filter).
      left. by rewrite <- (entry_names_itself other name).
    + exfalso. apply Hfix. apply elem_of_app. right. do 2 right. by left.
    + exfalso. apply Hfix. apply elem_of_app. right. right. by left.
    + apply elem_of_map_entry in Hp as (other & -> & [He Ho]%list_elem_of_filter).
      right. by rewrite <- (entry_names_itself other name).
    + exfalso. apply Hfix. apply elem_of_app. right. do 2 right. by left.
    + exfalso. apply Hfix. rewrite !elem_of_app. by do 2 right.
  - intros H. apply (includes_join_part _ (entry name)); [|apply includes_self].
    apply part_of_lines. right.
    destruct H as [Hm|He]; [left|right; left].
    + assert (name ∈ filter (missing_in process_env) vars) as Hf
        by by apply list_elem_of_filter.
      split; [by destruct (filter _ vars); [apply not_elem_of_nil in Hf|]|].
      right. left. apply elem_of_map_entry. eauto.
    + assert (name ∈ filter (empty_in process_env) vars) as Hf
        by by apply list_elem_of_filter.
      split; [by destruct (filter _ vars); [apply not_elem_of_nil in Hf|]|].
      right. left. apply elem_of_map_entry. eauto.
Qed.

Lemma filter_nonempty_Exists (P : jsstring → Prop) `{!∀ x, Decision (P x)}
    (names : list jsstring) :
  filter P names ≠ [] ↔ Exists P names.
Proof.
  rewrite Exists_exists. split.
  - destruct (filter P names) as [|name rest] eqn:Hf; [done|]. intros _.
    assert (name ∈ filter P names) as Hin by (rewrite Hf; by left).
    apply list_elem_of_filter in Hin as [? ?]. eauto.
  - intros (name & Hin & HP) Hnil.
    assert (name ∈ filter P names) as Hf by by apply list_elem_of_filter.
    rewrite Hnil in Hf. by apply not_elem_of_nil in Hf.
Qed.

Lemma other_line_has_no_title (part : jsstring) :
  part ∈ heading ++ [[]] ++ closing ++ map entry vars →
  includes part missing_title = false ∧ includes part empty_title = false.
Proof. intros Hp. rewrite Forall_forall in Htitles. by apply Htitles. Qed.

Lemma titles_in_lines :
  (includes
     (join LF (heading
               ++ push_names missing_title (filter (missing_in process_env) vars) []
               ++ push_names empty_title (filter (empty_in process_env) vars) []
               ++ closing))
     missing_title = true
   ↔ Exists (missing_in process_env) vars)
  ∧ (includes
       (join LF (heading
                 ++ push_names missing_title (filter (missing_in process_env) vars) []
                 ++ push_names empty_title (filter (empty_in process_env) vars) []
                 ++ closing))
       empty_title = true
     ↔ Exists (empty_in process_env) vars).
Proof.
  assert (∀ (P : jsstring → Prop) `{!∀ x, Decision (P x)} part,
            part ∈ map entry (filter P vars) →
            part ∈ heading ++ [[]] ++ closing ++ map entry vars) as Hent.
  { intros P ? part (name & -> & [_ Hin]%list_elem_of_filter)%elem_of_map_entry.
    rewrite !elem_of_app. do 3 right. apply elem_of_map_entry. eauto. }
  assert (∀ part, part ∈ heading → part ∈ heading ++ [[]] ++ closing ++ map entry vars)
    as Hhead by (intros part ?; rewrite !elem_of_app; by left).
  assert (∀ part, part ∈ closing → part ∈ heading ++ [[]] ++ closing ++ map entry vars)
    as Hclose by (intros part ?; rewrite !elem_of_app; right; right; by left).
  assert ([] ∈ heading ++ [[]] ++ closing ++ map entry vars) as Hblank
    by (rewrite !elem_of_app; right; left; by left).
  split; split.
  - intros H. apply includes_join_inv in H as (part & Hpart & Hinc);
      [|done|by_computation].
    apply (proj1 (filter_nonempty_Exists _ _)).
    apply part_of_lines in Hpart
      as [Hp|[[Hne _]|[[_ [->|[Hp| ->]]]|Hp]]]; [|done|..].
    + apply Hhead, other_line_has_no_title in Hp as [Hp _]. congruence.
    + exfalso. revert Hinc. by_computation.
    + apply Hent, other_line_has_no_title in Hp as [Hp _]. congruence.
    + apply other_line_has_no_title in Hblank as [Hp _]. congruence.
    + apply Hclose, other_line_has_no_title in Hp as [Hp _]. congruence.
  - intros H. apply (proj2 (filter_nonempty_Exists _ _)) in H.
    apply (includes_join_part _ missing_title); [|apply includes_self].
    apply part_of_lines. right. left. split; [done | by left].
  - intros H. apply includes_join_inv in H as (part & Hpart & Hinc);
      [|done|by_computation].
    apply (proj1 (filter_nonempty_Exists _ _)).
    apply part_of_lines in Hpart
      as [Hp|[[_ [->|[Hp| ->]]]|[[Hne _]|Hp]]]; [..|done|].
    + apply Hhead, other_line_has_no_title in Hp as [_ Hp]. congruence.
    + exfalso. revert Hinc. by_computation.
    + apply Hent, other_line_has_no_title in Hp as [_ Hp]. congruence.
    + apply other_line_has_no_title in Hblank as [_ Hp]. congruence.
    + apply Hclose, other_line_has_no_title in Hp as [_ Hp]. congruence.
  - intros H. apply (proj2 (filter_nonempty_Exists _ _)) in H.
    apply (includes_join_part _ empty_title); [|apply includes_self].
    apply part_of_lines. right. right. left. split; [done | by left].
Qed.

End message_text.

Lemma clientErrorParts_sections (missing empty : list jsstring) :
  clientErrorParts missing empty =
  clientHeading ++ push_names missing_title missing []
  ++ push_names empty_title empty [] ++ clientHowToFix.
Proof.
  unfold clientErrorParts.
  rewrite (push_names_section empty_title), (push_names_section missing_title).
  by rewrite <- !app_assoc.
Qed.

Lemma serverErrorParts_sections (missing empty : list jsstring) :
  serverErrorParts missing empty =
  serverHeading ++ push_names missing_title missing []
  ++ push_names empty_title empty [] ++ serverHowToFix.
Proof.
  unfold serverErrorParts.
  rewrite (push_names_section empty_title), (push_names_section missing_title).
  by rewrite <- !app_assoc.
Qed.

(** The message of a validator names exactly the offending variables: for
    a name of the validator's list, its entry line occurs in the thrown
    message if and only if the name is missing or empty in the source. *)
Theorem message_lists_offending_names (window_defined : bool)
    (process_env : gmap jsstring jsstring) (message name : jsstring) :
  (validateClientEnv process_env = Throw message ∧ name ∈ requiredClientVars)
  ∨ (validateServerEnv window_defined process_env = Throw message
     ∧ name ∈ requiredServerVars) →
  includes message (entry name) = true
  ↔ missing_in process_env name ∨ empty_in process_env name.
Proof.
  intros [[[_ ->]%validateClientEnv_Throw Hin]
         |[(_ & _ & ->)%validateServerEnv_Throw Hin]].
  - rewrite clientErrorParts_sections.
    apply entry_in_lines; [by_computation..|done].
  - rewrite serverErrorParts_sections.
    apply entry_in_lines; [by_computation..|done].
Qed.

Lemma message_lists_offending_names_witness :
  includes (join LF (clientErrorParts [js "NEXT_PUBLIC_SUPABASE_URL"]
                       [js "NEXT_PUBLIC_PLASMIC_TOKEN"]))
    (entry (js "NEXT_PUBLIC_APP_ENV")) = true
  ↔ missing_in broken_source (js "NEXT_PUBLIC_APP_ENV")
    ∨ empty_in broken_source (js "NEXT_PUBLIC_APP_ENV").
Proof.
  apply (message_lists_offending_names true broken_source).
  left. split.
  - vm_compute. reflexivity.
  - apply (bool_decide_unpack _). vm_compute. exact I.
Defined.

(** The heading for missing variables occurs in the message of a validator
    if and only if some name of its list is missing, and the heading for
    empty variables if and only if some name of its list is empty. *)
Theorem message_headings (process_env : gmap jsstring jsstring)
    (message : jsstring) :
  (validateClientEnv process_env = Throw message →
   (includes message missing_title = true
    ↔ Exists (missing_in process_env) requiredClientVars)
   ∧ (includes message empty_title = true
      ↔ Exists (empty_in process_env) requiredClientVars))
  ∧ (∀ window_defined,
       validateServerEnv window_defined process_env = Throw message →
       (includes message missing_title = true
        ↔ Exists (missing_in process_env) requiredServerVars)
       ∧ (includes message empty_title = true
          ↔ Exists (empty_in process_env) requiredServerVars)).
Proof.
  split.
  - intros [_ ->]%validateClientEnv_Throw.
    rewrite clientErrorParts_sections. apply titles_in_lines. by_computation.
  - intros window_defined (_ & _ & ->)%validateServerEnv_Throw.
    rewrite serverErrorParts_sections. apply titles_in_lines. by_computation.
Qed.

Lemma message_headings_witness :
  (includes (join LF (clientErrorParts requiredClientVars [])) missing_title = true
   ↔ Exists (missing_in ∅) requiredClientVars)
  ∧ (includes (join LF (clientErrorParts requiredClientVars [])) empty_title = true
     ↔ Exists (empty_in ∅) requiredClientVars).
Proof.
  apply (proj1 (message_headings ∅ _)).
  vm_compute. reflexivity.
Defined.

(** ** The display of an error *)

Lemma isEnvError_cases (message : jsstring) :
  includes message (js "Environment Variable Validation Failed") = isEnvError message.
Proof. reflexivity. Qed.

Lemma validateEnv_Throw_marker (window_defined : bool)
    (process_env : gmap jsstring jsstring) (message : jsstring) :
  validateEnv window_defined process_env = Throw message →
  isEnvError message = true.
Proof.
  rewrite validateEnv_unfold.
  destruct (validateClientEnv process_env) as [clientEnv|m] eqn:Hc.
  - destruct (validateServerEnv window_defined process_env) as [serverEnv|m] eqn:Hs;
      [done|].
    apply validateServerEnv_Throw in Hs as (_ & _ & ->).
    intros [= <-]. apply server_message_marker.
  - apply validateClientEnv_Throw in Hc as [_ ->].
    intros [= <-]. apply client_message_marker.
Qed.

Lemma display_elements (message : jsstring) :
  elements_by_tag "pre" (EnvErrorDisplay message) = [Element "pre" [Text message]]
  ∧ elements_by_tag "h1" (EnvErrorDisplay message) =
    [Element "h1"
       [Text (if isEnvError message
              then js "Environment Configuration Required"
              else js "Application Error")]]
  ∧ length (elements_by_tag "button" (EnvErrorDisplay message)) =
    (if isEnvError message then 1 else 0)%nat.
Proof.
  unfold EnvErrorDisplay. rewrite isEnvError_cases.
  destruct (isEnvError message); cbn [negb]; repeat split; reflexivity.
Qed.

(** Whatever the error, [EnvErrorDisplay] renders one [pre] element that
    holds the message as it is, under one [h1] heading: the configuration
    heading, with the retry button, when the message has the marker, and
    the generic heading, with no button, when it has not. *)
Theorem display_shows_message (message : jsstring) :
  elements_by_tag "pre" (EnvErrorDisplay message) = [Element "pre" [Text message]]
  ∧ elements_by_tag "h1" (EnvErrorDisplay message) =
    [Element "h1"
       [Text (if isEnvError message
              then js "Environment Configuration Required"
              else js "Application Error")]]
  ∧ length (elements_by_tag "button" (EnvErrorDisplay message)) =
    (if isEnvError message then 1 else 0)%nat.
Proof. apply display_elements. Qed.

(** An error [validateEnv] throws, once recorded by the boundary, is
    rendered in place of the children as the configuration screen, with
    the whole message in its [pre] element. *)
Theorem validation_error_displayed (window_defined : bool)
    (process_env : gmap jsstring jsstring) (message : jsstring) (children : node) :
  validateEnv window_defined process_env = Throw message →
  Boundary.render (Boundary.getDerivedStateFromError message) children
  = EnvErrorDisplay message
  ∧ elements_by_tag "h1" (EnvErrorDisplay message) =
    [Element "h1" [Text (js "Environment Configuration Required")]]
  ∧ elements_by_tag "pre" (EnvErrorDisplay message) = [Element "pre" [Text message]].
Proof.
  intros H. split; [reflexivity|].
  assert (isEnvError message = true) as Hm by by eapply validateEnv_Throw_marker.
  destruct (display_elements message) as (Hpre & Hh1 & _).
  by rewrite Hm in Hh1.
Qed.

Lemma validation_error_displayed_witness :
  Boundary.render
    (Boundary.getDerivedStateFromError
       (join LF (clientErrorParts requiredClientVars []))) (Text [])
  = EnvErrorDisplay (join LF (clientErrorParts requiredClientVars []))
  ∧ elements_by_tag "h1"
      (EnvErrorDisplay (join LF (clientErrorParts requiredClientVars []))) =
    [Element "h1" [Text (js "Environment Configuration Required")]]
  ∧ elements_by_tag "pre"
      (EnvErrorDisplay (join LF (clientErrorParts requiredClientVars []))) =
    [Element "pre" [Text (join LF (clientErrorParts requiredClientVars []))]].
Proof.
  apply (validation_error_displayed true ∅).
  vm_compute. reflexivity.
Defined.

(** [componentDidCatch] logs the message framed by line feeds exactly when
    [EnvErrorDisplay] shows the configuration screen for it: the boundary
    and the display test for the same marker. It makes 7 [console.error]
    calls then, and 2 otherwise. *)
Theorem boundary_log_matches_display (message : jsstring) :
  ([Boundary.LString ([0x0A] ++ message ++ [0x0A])]
     ∈ Boundary.componentDidCatch message
   ↔ elements_by_tag "h1" (EnvErrorDisplay message) =
     [Element "h1" [Text (js "Environment Configuration Required")]])
  ∧ length (Boundary.componentDidCatch message) =
    (if isEnvError message then 7 else 2)%nat.
Proof.
  destruct (display_elements message) as (_ & -> & _).
  unfold Boundary.componentDidCatch. rewrite isEnvError_cases.
  destruct (isEnvError message).
  - split; [|reflexivity]. split; [done|]. intros _.
    apply elem_of_app. right. do 3 right. by left.
  - split; [|reflexivity]. split; [|done].
    intros H. repeat (apply elem_of_cons in H as [H|H]; [discriminate H|]).
    by apply not_elem_of_nil in H.
Qed.

(** ** The check of an environment file *)

Example check_file_three_lines :
  let st := Script.check_file
              (js "NEXT_PUBLIC_APP_ENV=production" ++ [0x0A]
               ++ js "# NEXT_PUBLIC_APP_URL=http://localhost:3000" ++ [0x0A]
               ++ js "NEXT_PUBLIC_PLASMIC_TOKEN= ") in
  Script.emptyVars st = [js "NEXT_PUBLIC_PLASMIC_TOKEN"]
  ∧ Script.logged st =
    [Script.is_empty (js "NEXT_PUBLIC_PLASMIC_TOKEN");
     Script.has_value (js "NEXT_PUBLIC_APP_ENV")]
  ∧ length (Script.missingVars st) = 10%nat.
Proof. vm_compute. done. Qed.

Lemma startsWith_head (s t : jsstring) (c : N) :
  startsWith s (c :: t) = true → head s = Some c.
Proof.
  cbn [startsWith]. destruct s as [|d s]; [done|].
  intros [->%N.eqb_eq _]%andb_true_iff. done.
Qed.

Lemma requiredVars_initial :
  Forall (λ varName, head varName = Some 0x4E) Script.requiredVars.
Proof. by_computation. Qed.

(** What a turn of the loop does for a name that starts with [N]: the
    branch for a commented line is never taken. *)
Lemma check_cases (lines : list jsstring) (st : Script.state) (varName : jsstring) :
  head varName = Some 0x4E →
  Script.check lines st varName =
  match find (λ l, startsWith (trim l) varName) lines with
  | None =>
      Script.State (Script.missingVars st ++ [varName]) (Script.emptyVars st)
        (Script.logged st)
  | Some line =>
      if bool_decide
           (match Script.split 0x3D line !! 1%nat with
            | Some part => trim part
            | None => []
            end = [])
      then Script.State (Script.missingVars st) (Script.emptyVars st ++ [varName])
             (Script.logged st ++ [Script.is_empty varName])
      else Script.State (Script.missingVars st) (Script.emptyVars st)
             (Script.logged st ++ [Script.has_value varName])
  end.
Proof.
  intros Hn. unfold Script.check.
  destruct (find _ lines) as [line|] eqn:Hfind; [|done].
  apply find_some in Hfind as [_ Hstart].
  destruct varName as [|c varName]; [done|]. injection Hn as ->.
  apply startsWith_head in Hstart.
  destruct line as [|d line]; [done|].
  destruct (startsWith (trim (d :: line)) (js "#")) eqn:Hhash; [|done].
  apply startsWith_head in Hhash. rewrite Hstart in Hhash.
  vm_compute in Hhash. discriminate Hhash.
Qed.

Lemma check_file_logged (lines vars : list jsstring) (st : Script.state)
    (line : jsstring) :
  Forall (λ varName, head varName = Some 0x4E) vars →
  line ∈ Script.logged (foldl (Script.check lines) st vars) →
  line ∈ Script.logged st
  ∨ ∃ varName, varName ∈ vars
      ∧ (line = Script.is_empty varName ∨ line = Script.has_value varName).
Proof.
  intros Hvars. revert st.
  induction Hvars as [|varName vars Hn _ IH]; intros st; cbn [foldl]; [by left|].
  intros [Hin|(v & Hv & Hline)]%IH.
  - rewrite check_cases in Hin by done.
    destruct (find _ lines).
    + case_bool_decide; cbn [Script.logged] in Hin;
        apply elem_of_app in Hin as [?|Heq%list_elem_of_singleton];
        [by left| |by left|].
      * right. exists varName. split; [by left | by left].
      * right. exists varName. split; [by left | by right].
    + by left.
  - right. exists v. split; [by right | done].
Qed.

(** The loop of the script never logs that a variable is commented out:
    the line it finds starts with the name, so it does not start with
    [#]. *)
Theorem commented_out_never_logged (envContent varName : jsstring) :
  Script.commented_out varName ∉ Script.logged (Script.check_file envContent).
Proof.
  unfold Script.check_file. intros Hin.
  apply check_file_logged in Hin as [Hin|(v & _ & [H|H])];
    [..|apply requiredVars_initial].
  - by apply not_elem_of_nil in Hin.
  - apply (f_equal (λ l, l !! 2%nat)) in H. discriminate H.
  - apply (f_equal (λ l, l !! 2%nat)) in H. discriminate H.
Qed.

Lemma check_file_missing (lines vars : list jsstring) (st : Script.state) :
  Forall (λ varName, head varName = Some 0x4E) vars →
  Script.missingVars (foldl (Script.check lines) st vars) =
  Script.missingVars st
  ++ filter (λ varName,
               Forall (λ l, startsWith (trim l) varName = false) lines) vars.
Proof.
  intros Hvars. revert st.
  induction Hvars as [|varName vars Hn _ IH]; intros st; cbn [foldl].
  - by rewrite filter_nil, app_nil_r.
  - rewrite IH, check_cases, filter_cons by done.
    destruct (find _ lines) as [line|] eqn:Hfind.
    + apply find_some in Hfind as [Hin Hstart].
      rewrite decide_False.
      * by case_bool_decide.
      * rewrite Forall_forall. intros Hall.
        apply list_elem_of_In in Hin. specialize (Hall _ Hin). congruence.
    + rewrite decide_True.
      * cbn. by rewrite <- app_assoc.
      * apply Forall_forall. intros l Hl%list_elem_of_In.
        apply (find_none _ _ Hfind) in Hl. by destruct (startsWith _ _).
Qed.

(** The script reports as missing exactly the required names that no line
    of the file, once trimmed, starts with, in the order of its list; a
    line that only has the name as a prefix of a longer one counts as a
    definition of it. *)
Theorem script_missing_names (envContent : jsstring) :
  Script.missingVars (Script.check_file envContent) =
  filter (λ varName,
            Forall (λ l, startsWith (trim l) varName = false)
              (Script.split 0x0A envContent))
    Script.requiredVars.
Proof.
  unfold Script.check_file.
  by rewrite check_file_missing by apply requiredVars_initial.
Qed.

(** The script checks the names [validateClientEnv] requires and prints,
    for the same two arrays, the lines of the error [validateClientEnv]
    throws. *)
Theorem script_matches_validator (missingVars emptyVars : list jsstring) :
  Script.requiredVars = requiredClientVars
  ∧ Script.errorParts missingVars emptyVars = clientErrorParts missingVars emptyVars.
Proof. split; reflexivity. Qed.

(** ** What the exports and the messages depend on *)

Lemma filter_agree (P Q : jsstring → Prop) `{!∀ x, Decision (P x)}
    `{!∀ x, Decision (Q x)} (names : list jsstring) :
  Forall (λ name, P name ↔ Q name) names → filter P names = filter Q names.
Proof.
  induction 1 as [|name names Hname _ IH]; [done|].
  rewrite !filter_cons, IH.
  destruct (decide (P name)), (decide (Q name)); tauto.
Qed.

(** What the module exports, or the error it throws, is the same on two
    sources that agree on the names the context validates: in a browser
    no secret variable, and nowhere a variable outside the two lists, has
    any influence. *)
Theorem exports_independent (window_defined : bool)
    (source1 source2 : gmap jsstring jsstring) :
  Forall (λ name, source1 !! name = source2 !! name)
    (validated_names window_defined) →
  load window_defined source1 = load window_defined source2.
Proof.
  unfold validated_names. intros [Hc Hs]%Forall_app.
  rewrite !load_unfold, !validateEnv_unfold.
  unfold validateClientEnv, validateServerEnv.
  rewrite (agree_scan _ _ _ Hc), (agree_collect _ _ _ Hc).
  destruct window_defined; [done|].
  by rewrite (agree_scan _ _ _ Hs), (agree_collect _ _ _ Hs).
Qed.

Lemma exports_independent_witness :
  load true public_source = load true secrets_source.
Proof.
  apply (exports_independent true public_source secrets_source).
  apply (bool_decide_unpack _). vm_compute. exact I.
Defined.

(** The message of a validator shows which names are missing and which
    are empty, and nothing of the values: on two sources that class every
    name of its list alike, the two errors are the same. *)
Theorem message_hides_values (window_defined : bool)
    (source1 source2 : gmap jsstring jsstring) (message1 message2 : jsstring) :
  Forall (λ name, (missing_in source1 name ↔ missing_in source2 name)
                  ∧ (empty_in source1 name ↔ empty_in source2 name))
    (requiredClientVars ++ requiredServerVars) →
  (validateClientEnv source1 = Throw message1
   ∧ validateClientEnv source2 = Throw message2)
  ∨ (validateServerEnv window_defined source1 = Throw message1
     ∧ validateServerEnv window_defined source2 = Throw message2) →
  message1 = message2.
Proof.
  intros [Hc Hs]%Forall_app.
  intros [[[_ ->]%validateClientEnv_Throw [_ ->]%validateClientEnv_Throw]
         |[(_ & _ & ->)%validateServerEnv_Throw
           (_ & _ & ->)%validateServerEnv_Throw]].
  - rewrite (filter_agree (missing_in source1) (missing_in source2)),
      (filter_agree (empty_in source1) (empty_in source2)); [done|..];
      (eapply Forall_impl; [exact Hc|]); by intros name [? ?].
  - rewrite (filter_agree (missing_in source1) (missing_in source2)),
      (filter_agree (empty_in source1) (empty_in source2)); [done|..];
      (eapply Forall_impl; [exact Hs|]); by intros name [? ?].
Qed.

Lemma message_hides_values_witness :
  join LF (serverErrorParts [] requiredServerVars)
  = join LF (serverErrorParts [] requiredServerVars).
Proof.
  apply (message_hides_values false
           (set_all requiredServerVars [] public_source)
           (set_all requiredServerVars (js "  ") secrets_source)).
  - apply (bool_decide_unpack _). vm_compute. exact I.
  - right. split; vm_compute; reflexivity.
Defined.

(** A defined name is put in [empty] exactly when its value has nothing
    but white space, the value of length zero included: tabs, line
    breaks, no-break and other Unicode spaces count as blank. *)
Theorem empty_iff_white_space (process_env : gmap jsstring jsstring)
    (vars : list jsstring) (name : jsstring) :
  name ∈ (scan process_env vars).2
  ↔ name ∈ vars
    ∧ ∃ value, process_env !! name = Some value
        ∧ forallb is_white_space value = true.
Proof.
  rewrite scan_filter. cbn [snd]. rewrite list_elem_of_filter.
  unfold empty_in. split.
  - intros [He Hin]. split; [done|].
    destruct (process_env !! name) as [value|]; [|done].
    exists value. split; [done|]. by apply trim_nil_iff.
  - intros [Hin (value & -> & Hws)]. split; [|done]. by apply trim_nil_iff.
Qed.

Lemma empty_iff_white_space_witness :
  js "NEXT_PUBLIC_PLASMIC_TOKEN" ∈ (scan broken_source requiredClientVars).2.
Proof.
  apply (proj2 (empty_iff_white_space broken_source requiredClientVars _)).
  split.
  - apply (bool_decide_unpack _). vm_compute. exact I.
  - exists []. split; vm_compute; reflexivity.
Defined.
